(** * Consent-form redaction, search and serialization pipeline

    A shallow embedding of the table pipeline of the data-donation UI:

    - [table_container.tsx] (the redaction ledger [deleteTableRows],
      [handleDelete], [handleUndo], the row search [searchRows] and the
      derived [searchedTable]);
    - [consent_form.tsx] ([parseTable], [serializeTable], [serializeRow],
      [updateTable], [serializeConsentData]);
    - [visualizationDataWorker.ts] and [useVisualizationData.ts] (the
      dispatch on the visualization tag and the status the hook reports).

    JavaScript strings are modelled as [string]: a sequence of code units,
    restricted to the code units below 256.  Arrays are lists, a [Set] that
    is only queried with [has] is a [gset], numbers that count rows are
    integers in [Z]. *)

From Stdlib Require Import ZArith Ascii String.
From stdpp Require Import gmap strings list pretty sorting.

Local Open Scope Z_scope.

(** ** Data model ([types/elements]) *)

(** The [__type__] discriminators of the records are constants and are
    left out. *)
Record PropsUITableRow := {
  row_id : string;
  row_cells : list string
}.

Record PropsUITableHead := {
  head_cells : list string
}.

Record PropsUITableBody := {
  body_rows : list PropsUITableRow
}.

(** Modelled from the spec: [types/visualizations] is not part of the
    sources.  A visualization descriptor is a tagged variant; the tag is the
    only field the pipeline inspects, the remaining configuration is kept as
    an uninterpreted property list. *)
Record VisualizationType := {
  vis_type : string;
  vis_fields : list (string * string)
}.

Record TableWithContext := {
  tbl_id : string;
  tbl_head : PropsUITableHead;
  tbl_body : PropsUITableBody;
  tbl_title : string;
  tbl_description : string;
  tbl_deletedRowCount : Z;
  tbl_annotations : list string;
  tbl_originalBody : PropsUITableBody;
  tbl_deletedRows : list (list string);
  tbl_visualizations : option (list VisualizationType)
}.

Global Instance PropsUITableRow_eq_dec : EqDecision PropsUITableRow.
Proof. solve_decision. Defined.

(** ** The redaction ledger ([table_container.tsx]) *)

(** The two nested loops that fill [deleteIds]. *)
Definition deleteIds (deletedRows : list (list string)) : gset string :=
  foldl (λ ids deletedSet, foldl (λ ids id, ids ∪ {[ id ]}) ids deletedSet)
        ∅ deletedRows.

Definition deleteTableRows (table : TableWithContext)
    (deletedRows : list (list string)) : TableWithContext :=
  let ids := deleteIds deletedRows in
  let rows :=
    filter (λ row, row_id row ∉ ids) (body_rows (tbl_originalBody table)) in
  let deletedRowCount :=
    Z.of_nat (length (body_rows (tbl_originalBody table)))
    - Z.of_nat (length rows) in
  {| tbl_id := tbl_id table;
     tbl_head := tbl_head table;
     tbl_body := {| body_rows := rows |};
     tbl_title := tbl_title table;
     tbl_description := tbl_description table;
     tbl_deletedRowCount := deletedRowCount;
     tbl_annotations := tbl_annotations table;
     tbl_originalBody := tbl_originalBody table;
     tbl_deletedRows := deletedRows;
     tbl_visualizations := tbl_visualizations table |}.

(** [xs.slice(0, -1)]: every element but the last, [[]] for [[]]. *)
Definition slice_0_m1 {A} (xs : list A) : list A :=
  take (length xs - 1)%nat xs.

(** The ledger update of [handleDelete] (the two lines that append the batch
    and recompute) and the one of [handleUndo]. *)
Definition applyDeletion (table : TableWithContext) (rowIds : list string)
    : TableWithContext :=
  let deletedRows := tbl_deletedRows table ++ [rowIds] in
  deleteTableRows table deletedRows.

Definition handleUndo (table : TableWithContext) : TableWithContext :=
  let deletedRows := slice_0_m1 (tbl_deletedRows table) in
  deleteTableRows table deletedRows.

Inductive LedgerOp :=
  | ApplyDeletion (rowIds : list string)
  | UndoLast.

Definition ledger_step (table : TableWithContext) (op : LedgerOp)
    : TableWithContext :=
  match op with
  | ApplyDeletion rowIds => applyDeletion table rowIds
  | UndoLast => handleUndo table
  end.

Definition ledger_run (table : TableWithContext) (ops : list LedgerOp)
    : TableWithContext :=
  foldl ledger_step table ops.

(** The table after each operation of [ops], in order. *)
Fixpoint ledger_trace (table : TableWithContext) (ops : list LedgerOp)
    : list TableWithContext :=
  match ops with
  | [] => []
  | op :: ops' =>
      let table' := ledger_step table op in
      table' :: ledger_trace table' ops'
  end.

(** The identifiers named by the ledger: the union of all its batches. *)
Definition in_batches (deletedRows : list (list string)) (id : string) : Prop :=
  Exists (λ batch, id ∈ batch) deletedRows.

Global Instance in_batches_dec deletedRows id : Decision (in_batches deletedRows id).
Proof. unfold in_batches. apply _. Defined.

(** The invariant of the data model: the visible rows are the original rows
    without those named by the ledger, in the original order, and the count
    is the difference of the lengths. *)
Definition TableInvariant (table : TableWithContext) : Prop :=
  body_rows (tbl_body table)
    = filter (λ row, ¬ in_batches (tbl_deletedRows table) (row_id row))
             (body_rows (tbl_originalBody table))
  ∧ sublist (body_rows (tbl_body table)) (body_rows (tbl_originalBody table))
  ∧ tbl_deletedRowCount table
    = Z.of_nat (length (body_rows (tbl_originalBody table)))
      - Z.of_nat (length (body_rows (tbl_body table))).

(** ** Thrown values *)

Inductive ErrorClass := ClsError | ClsRangeError | ClsSyntaxError | ClsTypeError.

Record JsError := {
  err_class : ErrorClass;
  err_message : string
}.

Global Instance ErrorClass_eq_dec : EqDecision ErrorClass.
Proof. solve_decision. Defined.

Global Instance JsError_eq_dec : EqDecision JsError.
Proof. solve_decision. Defined.

(** A computation that returns a value or throws. *)
Inductive result (A : Type) :=
  | Ok (a : A)
  | Throw (e : JsError).
Global Arguments Ok {A} a.
Global Arguments Throw {A} e.

Definition result_bind {A B} (m : result A) (f : A → result B) : result B :=
  match m with
  | Ok a => f a
  | Throw e => Throw e
  end.

Notation "x ←! m ; k" := (result_bind m (λ x, k))
  (at level 20, m at level 100, k at level 200, right associativity,
   format "x  ←!  m ;  '/' k").

(** [xs.map(f)] for an [f] that may throw: stops at the first throw. *)
Fixpoint result_map {A B} (f : A → result B) (xs : list A) : result (list B) :=
  match xs with
  | [] => Ok []
  | x :: xs' =>
      y ←! f x;
      ys ←! result_map f xs';
      Ok (y :: ys)
  end.

(** ** Strings: [trim], and the escaping of the query *)

Definition code_unit (c : ascii) : N := Ascii.N_of_ascii c.

(** [WhiteSpace] and [LineTerminator] code units below 256: TAB, LF, VT, FF,
    CR, SP and NBSP. *)
Definition is_trim_space (c : ascii) : bool :=
  bool_decide (code_unit c ∈ [9; 10; 11; 12; 13; 32; 160]%N).

Fixpoint trimStart (s : string) : string :=
  match s with
  | EmptyString => EmptyString
  | String c s' => if is_trim_space c then trimStart s' else s
  end.

Fixpoint trimEnd (s : string) : string :=
  match s with
  | EmptyString => EmptyString
  | String c s' =>
      match trimEnd s' with
      | EmptyString =>
          if is_trim_space c then EmptyString else String c EmptyString
      | t => String c t
      end
  end.

Definition trim (s : string) : string := trimEnd (trimStart s).

(** The character class [[-/\\^$*+?.()|[\]{}]] of the escaping regular
    expression. *)
Definition escaped_class : list ascii :=
  list_ascii_of_string "-/\^$*+?.()|[]{}".

Definition in_escaped_class (c : ascii) : bool :=
  bool_decide (c ∈ escaped_class).

(** [q.replace(/[-/\\^$*+?.()|[\]{}]/, '\\$&')]: the regular expression has
    no [g] flag, so only the first character of the class is preceded by a
    backslash. *)
Fixpoint escape_query (q : string) : string :=
  match q with
  | EmptyString => EmptyString
  | String c q' =>
      if in_escaped_class c then String "\" (String c q')
      else String c (escape_query q')
  end.

(** ** The row search ([searchRows]) *)

(** [undefined] (no filter is active) or the set of matching identifiers. *)
Inductive SearchResult :=
  | Unfiltered
  | Ids (ids : gset string).

Section Search.
(** The regular expression engine of the runtime, [new RegExp(source, 'i')]:
    the constructor throws on a malformed pattern, otherwise it yields the
    [test] method of the case-insensitive expression. *)
Variable newRegExp_i : string → result (string → bool).

(** [for (const cell of row.cells) if (regex.test(cell)) { matchesSearch =
    true; break }] *)
Fixpoint cells_loop (regex : string → bool) (cells : list string)
    (matchesSearch : bool) : bool :=
  match cells with
  | [] => matchesSearch
  | cell :: cells' =>
      if regex cell then true else cells_loop regex cells' matchesSearch
  end.

(** [for (const regex of regexes) { ...; if (matchesSearch) break }] *)
Fixpoint regexes_loop (regexes : list (string → bool)) (cells : list string)
    (matchesSearch : bool) : bool :=
  match regexes with
  | [] => matchesSearch
  | regex :: regexes' =>
      let matchesSearch := cells_loop regex cells matchesSearch in
      if matchesSearch then true
      else regexes_loop regexes' cells matchesSearch
  end.

(** [row.cells.findIndex((cell, index) => index === 0)] *)
Definition dataTypeIndex (cells : list string) : Z :=
  match cells with
  | [] => -1
  | _ :: _ => 0
  end.

(** The body of the loop over the rows: does the row go into [ids]? *)
Definition row_selected (regexes : list (string → bool)) (search : string)
    (dataTypeFilter : option string) (row : PropsUITableRow) : bool :=
  let matchesSearch := bool_decide (trim search = "") in
  let matchesDataType := bool_decide (dataTypeFilter = None) in
  let matchesSearch := regexes_loop regexes (row_cells row) matchesSearch in
  let dataTypeIndex := dataTypeIndex (row_cells row) in
  let matchesDataType :=
    if bool_decide (dataTypeIndex ≠ -1)
       && (bool_decide (dataTypeFilter = None)
           || bool_decide (row_cells row !! Z.to_nat dataTypeIndex
                           = dataTypeFilter))
    then true else matchesDataType in
  matchesSearch && matchesDataType.

Definition searchRows (rows : list PropsUITableRow) (search : string)
    (dataTypeFilter : option string) : result SearchResult :=
  if bool_decide (trim search = "") && bool_decide (dataTypeFilter = None)
  then Ok Unfiltered
  else
    let query := [trim search] in
    regexes ←! result_map (λ q, newRegExp_i (escape_query q)) query;
    Ok (Ids (foldl (λ ids row,
                      if row_selected regexes search dataTypeFilter row
                      then ids ∪ {[ row_id row ]} else ids)
                   ∅ rows)).
End Search.

(** ** A regular expression engine for escaped literals

    The runtime's engine is not part of the sources.  This engine covers the
    patterns made of ordinary characters, identity escapes of the characters
    of [escaped_class], and the wildcard [.]; it rejects every other pattern,
    so that a result at a pattern outside this fragment says nothing about
    the runtime. *)

Inductive atom :=
  | Lit (c : ascii)
  | AnyChar.

Definition syntax_chars : list ascii := list_ascii_of_string "^$\.*+?()[]{}|".

Definition is_syntax_char (c : ascii) : bool := bool_decide (c ∈ syntax_chars).

Fixpoint parse_pattern (p : string) : option (list atom) :=
  match p with
  | EmptyString => Some []
  | String c p' =>
      if bool_decide (c = "\"%char) then
        match p' with
        | EmptyString => None
        | String d p'' =>
            if in_escaped_class d then (Lit d ::.) <$> parse_pattern p''
            else None
        end
      else if bool_decide (c = "."%char) then (AnyChar ::.) <$> parse_pattern p'
      else if is_syntax_char c then None
      else (Lit c ::.) <$> parse_pattern p'
  end.

(** [Canonicalize] of a case-insensitive, non-Unicode expression on the code
    units below 256: the upper-case mapping when it is a single code unit
    (so [ß] stays, [µ] and [ÿ] leave the range). *)
Definition canonicalize (c : ascii) : N :=
  let n := code_unit c in
  if bool_decide (97 ≤ n ≤ 122)%N then (n - 32)%N
  else if bool_decide (224 ≤ n ≤ 254 ∧ n ≠ 247)%N then (n - 32)%N
  else if bool_decide (n = 181)%N then 924%N
  else if bool_decide (n = 255)%N then 376%N
  else n.

Definition is_line_terminator (c : ascii) : bool :=
  bool_decide (code_unit c ∈ [10; 13]%N).

Definition atom_matches (a : atom) (d : ascii) : bool :=
  match a with
  | Lit c => bool_decide (canonicalize c = canonicalize d)
  | AnyChar => negb (is_line_terminator d)
  end.

Fixpoint match_here (atoms : list atom) (s : string) : bool :=
  match atoms, s with
  | [], _ => true
  | _ :: _, EmptyString => false
  | a :: atoms', String d s' => atom_matches a d && match_here atoms' s'
  end.

Fixpoint match_anywhere (atoms : list atom) (s : string) : bool :=
  match_here atoms s
  || match s with
     | EmptyString => false
     | String _ s' => match_anywhere atoms s'
     end.

Definition literal_engine (source : string) : result (string → bool) :=
  match parse_pattern source with
  | Some atoms => Ok (match_anywhere atoms)
  | None =>
      Throw {| err_class := ClsSyntaxError;
               err_message := "Invalid regular expression" |}
  end.

(** ** The search as the specification words it

    A row matches if the trimmed query is empty or some cell contains it as a
    literal substring up to case, and the type filter is absent or equals the
    first cell. *)

Fixpoint ci_prefix (q s : string) : bool :=
  match q, s with
  | EmptyString, _ => true
  | String _ _, EmptyString => false
  | String c q', String d s' =>
      bool_decide (canonicalize c = canonicalize d) && ci_prefix q' s'
  end.

Fixpoint ci_contains (cell q : string) : bool :=
  ci_prefix q cell
  || match cell with
     | EmptyString => false
     | String _ cell' => ci_contains cell' q
     end.

Definition spec_row_matches (query : string) (typeFilter : option string)
    (row : PropsUITableRow) : Prop :=
  (trim query = ""
   ∨ ∃ cell, cell ∈ row_cells row ∧ ci_contains cell (trim query) = true)
  ∧ (typeFilter = None ∨ head (row_cells row) = typeFilter).

Global Instance spec_row_matches_dec query typeFilter row :
  Decision (spec_row_matches query typeFilter row).
Proof.
  unfold spec_row_matches.
  assert (Decision (∃ cell, cell ∈ row_cells row
                            ∧ ci_contains cell (trim query) = true)).
  { destruct (decide (Exists (λ cell, ci_contains cell (trim query) = true)
                             (row_cells row))) as [H|H].
    - left. by apply Exists_exists in H.
    - right. intros H'. apply H. by apply Exists_exists. }
  apply _.
Defined.

Definition spec_search (rows : list PropsUITableRow) (query : string)
    (typeFilter : option string) : gset string :=
  list_to_set (row_id <$> filter (spec_row_matches query typeFilter) rows).

(** The condition under which the loop of [searchRows] adds a row, for a
    single regular expression whose [test] is [regex]. *)
Definition row_passes (regex : string → bool) (search : string)
    (dataTypeFilter : option string) (row : PropsUITableRow) : Prop :=
  (trim search = "" ∨ Exists (λ cell, regex cell = true) (row_cells row))
  ∧ (dataTypeFilter = None ∨ head (row_cells row) = dataTypeFilter).

Global Instance row_passes_dec regex search dataTypeFilter row :
  Decision (row_passes regex search dataTypeFilter row).
Proof. unfold row_passes. apply _. Defined.

(** ** Queries whose escaping is complete

    The first character of [escaped_class] is escaped; the escaping is
    complete when no character after it is a syntax character. *)

Fixpoint only_literals (q : string) : bool :=
  match q with
  | EmptyString => true
  | String c q' => negb (is_syntax_char c) && only_literals q'
  end.

Fixpoint escape_complete (q : string) : bool :=
  match q with
  | EmptyString => true
  | String c q' =>
      if in_escaped_class c then only_literals q' else escape_complete q'
  end.

(** ** The table container ([TableContainer])

    A container renders the [table] it receives from the form and owns three
    pieces of search state.  The flags that only fold or unfold the table on
    screen ([show], [autoOpen]) are left out. *)

Record SearchState := {
  ss_searchFilterIds : option (gset string);
  ss_dataTypeFilter : option string;
  ss_search : string
}.

Record ContainerState := {
  cs_table : TableWithContext;
  cs_state : SearchState
}.

Definition with_rows (table : TableWithContext) (rows : list PropsUITableRow)
    : TableWithContext :=
  {| tbl_id := tbl_id table;
     tbl_head := tbl_head table;
     tbl_body := {| body_rows := rows |};
     tbl_title := tbl_title table;
     tbl_description := tbl_description table;
     tbl_deletedRowCount := tbl_deletedRowCount table;
     tbl_annotations := tbl_annotations table;
     tbl_originalBody := tbl_originalBody table;
     tbl_deletedRows := tbl_deletedRows table;
     tbl_visualizations := tbl_visualizations table |}.

(** The memoised [searchedTable]: the view that is rendered. *)
Definition searchedTable (table : TableWithContext)
    (searchFilterIds : option (gset string)) : TableWithContext :=
  match searchFilterIds with
  | None => table
  | Some ids =>
      let filteredRows :=
        filter (λ row, row_id row ∈ ids) (body_rows (tbl_body table)) in
      with_rows table filteredRows
  end.

(** The state after [setSearch(''); setDataTypeFilter(null);
    setSearchFilterIds(undefined)]. *)
Definition cleared : SearchState :=
  {| ss_searchFilterIds := None; ss_dataTypeFilter := None; ss_search := "" |}.

(** [handleDelete(rowIds?)].  In the result, [cs_table] is the table handed
    to [updateTable] when there is one (the second component then names the
    update as a ledger operation), and the unchanged table otherwise. *)
Definition handleDelete (st : ContainerState) (rowIds : option (list string))
    : ContainerState * option LedgerOp :=
  let table := cs_table st in
  let searched := searchedTable table (ss_searchFilterIds (cs_state st)) in
  let rowIds :=
    match rowIds with
    | None => row_id <$> body_rows (tbl_body searched)
    | Some rowIds => rowIds
    end in
  if bool_decide (0 < length rowIds)%nat then
    let state :=
      if bool_decide (length rowIds = length (body_rows (tbl_body searched)))
      then cleared else cs_state st in
    let newTable := applyDeletion table rowIds in
    ({| cs_table := newTable; cs_state := state |},
     Some (ApplyDeletion rowIds))
  else (st, None).

(** What the user and the debounce timer do to a container. *)
Inductive Event :=
  | OnSearch (search : string)
  | OnDataTypeFilter (dataType : string)
  | DebounceElapsed
  | DeleteClicked (rowIds : option (list string))
  | UndoClicked.

Section Container.
Variable newRegExp_i : string → result (string → bool).

(** The callback of the 300 ms timer; a throw inside it leaves the state
    as it is. *)
Definition debounce_elapsed (st : ContainerState) : ContainerState :=
  match searchRows newRegExp_i
          (body_rows (tbl_originalBody (cs_table st)))
          (ss_search (cs_state st)) (ss_dataTypeFilter (cs_state st)) with
  | Ok ids =>
      {| cs_table := cs_table st;
         cs_state :=
           {| ss_searchFilterIds :=
                match ids with Unfiltered => None | Ids ids => Some ids end;
              ss_dataTypeFilter := ss_dataTypeFilter (cs_state st);
              ss_search := ss_search (cs_state st) |} |}
  | Throw _ => st
  end.

(** One event.  As for [handleDelete], the second component names the call
    of [updateTable], if the event leads to one, and [cs_table] of the first
    is then the table handed over. *)
Definition container_step (st : ContainerState) (ev : Event)
    : ContainerState * option LedgerOp :=
  match ev with
  | OnSearch search =>
      ({| cs_table := cs_table st;
          cs_state :=
            {| ss_searchFilterIds := ss_searchFilterIds (cs_state st);
               ss_dataTypeFilter := ss_dataTypeFilter (cs_state st);
               ss_search := search |} |}, None)
  | OnDataTypeFilter dataType =>
      ({| cs_table := cs_table st;
          cs_state :=
            {| ss_searchFilterIds := ss_searchFilterIds (cs_state st);
               ss_dataTypeFilter :=
                 if bool_decide (dataType = "") then None else Some dataType;
               ss_search := ss_search (cs_state st) |} |}, None)
  | DebounceElapsed => (debounce_elapsed st, None)
  | DeleteClicked rowIds => handleDelete st rowIds
  | UndoClicked =>
      ({| cs_table := handleUndo (cs_table st); cs_state := cs_state st |},
       Some UndoLast)
  end.
End Container.

(** ** The consent form ([consent_form.tsx]) *)

(** The values a parsed data frame holds in its cells, and [undefined] for
    a property that is absent.  A number is an integer; fractional numbers
    are outside this model. *)
Inductive JsValue :=
  | JUndefined
  | JNull
  | JBool (b : bool)
  | JNum (n : Z)
  | JStr (s : string).

Global Instance JsValue_eq_dec : EqDecision JsValue.
Proof. solve_decision. Defined.

(** [String(v)].  For a number this is its plain decimal numeral, which is
    what [String] prints for a safe integer (see [safe_value] below); a
    statement about the text of a number assumes that it is one. *)
Definition String_of (v : JsValue) : string :=
  match v with
  | JUndefined => "undefined"
  | JNull => "null"
  | JBool true => "true"
  | JBool false => "false"
  | JNum n => pretty n
  | JStr s => s
  end.

(** A data frame as [JSON.parse] returns it: the columns in the order of
    [Object.keys], each a mapping from row keys to values. *)
Definition Column := gmap string JsValue.
Definition DataFrame := list (string * Column).

(** [Number.MAX_SAFE_INTEGER].  Up to it in absolute value, [JSON.parse]
    reads an integer numeral as that integer and [String] prints the
    integer as its decimal numeral; beyond it, numerals are rounded to the
    nearest double and printed with the fewest digits that identify it. *)
Definition MAX_SAFE_INTEGER : Z := 2 ^ 53 - 1.

Definition safe_value (v : JsValue) : bool :=
  match v with
  | JNum n => bool_decide (- MAX_SAFE_INTEGER ≤ n ≤ MAX_SAFE_INTEGER)
  | _ => true
  end.

(** A data frame all of whose numbers are safe integers. *)
Definition safe_frame (dataFrame : DataFrame) : bool :=
  forallb (λ column, forallb (λ entry, safe_value entry.2)
                             (map_to_list column.2))
          dataFrame.

(** [dataFrame[column]], for a [column] among [columnNames dataFrame]: the
    first property of that name.  (No other name is looked up; the empty
    mapping stands for the value the code never reads.) *)
Fixpoint frame_column (dataFrame : DataFrame) (column : string) : Column :=
  match dataFrame with
  | [] => ∅
  | (name, col) :: rest =>
      if bool_decide (name = column) then col else frame_column rest column
  end.

(** [dataFrame[column][`${row}`]], [undefined] when absent. *)
Definition frame_value (dataFrame : DataFrame) (column : string) (row : nat)
    : JsValue :=
  default JUndefined (frame_column dataFrame column !! pretty row).

Definition rowCell (dataFrame : DataFrame) (column : string) (row : nat)
    : string :=
  let text := String_of (frame_value dataFrame column row) in
  text.

Definition columnNames (dataFrame : DataFrame) : list string :=
  fst <$> dataFrame.

Definition columnCount (dataFrame : DataFrame) : Z :=
  Z.of_nat (length (columnNames dataFrame)).

Definition rowCount (dataFrame : DataFrame) : Z :=
  if bool_decide (columnCount dataFrame = 0) then 0
  else
    let firstColumn :=
      frame_column dataFrame (default "" (columnNames dataFrame !! 0%nat)) in
    Z.of_nat (size firstColumn) - 1.

(** The loop [for (let row = 0; row <= n; row++)] runs for the row numbers
    [0, ..., n], none when [n] is negative. *)
Definition rows (data : DataFrame) : list PropsUITableRow :=
  let n := rowCount data in
  (λ row : nat,
     let id := pretty row in
     let cells := (λ column, rowCell data column row) <$> columnNames data in
     {| row_id := id; row_cells := cells |})
  <$> seq 0 (Z.to_nat (n + 1)).

(** [PropsUIPromptConsentFormTable]; a text bundle is a list of
    (locale, text) pairs. *)
Definition Translatable := list (string * string).

Record PropsUIPromptConsentFormTable := {
  cft_id : string;
  cft_title : Translatable;
  cft_description : option Translatable;
  cft_data_frame : DataFrame;
  cft_visualizations : option (list VisualizationType)
}.

(** Lodash's [_.zip] of two arrays: as long as the longer one, the shorter
    one padded with [undefined]. *)
Fixpoint lodash_zip {A B} (xs : list A) (ys : list B)
    : list (option A * option B) :=
  match xs with
  | [] => (λ y, (None, Some y)) <$> ys
  | x :: xs' =>
      match ys with
      | [] => (Some x, None) :: lodash_zip xs' []
      | y :: ys' => (Some x, Some y) :: lodash_zip xs' ys'
      end
  end.

(** Lodash's [_.fromPairs]: [result[pair[0]] = pair[1]] for each pair in
    turn.  An [undefined] key names the property ["undefined"]; a value is a
    string or [undefined] ([None]). *)
Definition lodash_fromPairs (pairs : list (option string * option string))
    : gmap string (option string) :=
  foldl (λ result pair, <[ default "undefined" pair.1 := pair.2 ]> result)
        ∅ pairs.

(** Modelled from the spec: [helpers.assert] is not part of the sources.  A
    failed assertion is fatal: it throws an error with the given message. *)
Definition assert (condition : bool) (message : string) : result unit :=
  if condition then Ok ()
  else Throw {| err_class := ClsError; err_message := message |}.

Definition serializeRow (row : PropsUITableRow) (head : PropsUITableHead)
    : result (gmap string (option string)) :=
  _ ←! assert (bool_decide (length (row_cells row) = length (head_cells head)))
         ("Number of cells in row (" +:+ pretty (length (row_cells row))
          +:+ ") should be equals to number of cells in head ("
          +:+ pretty (length (head_cells head)) +:+ ")");
  let keys := (λ cell, cell) <$> head_cells head in
  let values := (λ cell, cell) <$> row_cells row in
  Ok (lodash_fromPairs (lodash_zip keys values)).

(** The precondition of [serializeRow]: the row is as wide as the head. *)
Definition row_fits (head : PropsUITableHead) (row : PropsUITableRow) : Prop :=
  length (row_cells row) = length (head_cells head).

Global Instance row_fits_dec head row : Decision (row_fits head row).
Proof. unfold row_fits. apply _. Defined.

(** Every original row is as wide as the head. *)
Definition TableWidth (table : TableWithContext) : Prop :=
  Forall (row_fits (tbl_head table)) (body_rows (tbl_originalBody table)).

(** [{ [id]: data }], an object with the single property [id]. *)
Definition serializeTable (table : TableWithContext)
    : result (string * list (gmap string (option string))) :=
  data ←! result_map (λ row, serializeRow row (tbl_head table))
                     (body_rows (tbl_body table));
  Ok (tbl_id table, data).

(** [updateTable(tableId, table)] on the list of tables of the form. *)
Definition updateTable (tables : list TableWithContext) (tableId : string)
    (table : TableWithContext) : list TableWithContext :=
  match list_find (λ table, tbl_id table = tableId) tables with
  | None => tables
  | Some (index, _) => <[ index := table ]> tables
  end.

(** The elements of the donated array. *)
Inductive PayloadElement :=
  | TableData (id : string) (data : list (gmap string (option string)))
  | UserOmissions (user_omissions : string).

Section ConsentForm.
(** [Translator.translate] and [JSON.stringify] (on an array of strings,
    and on the donated array) belong to the runtime and to collaborators
    that are not part of the sources. *)
Variable translate : Translatable → string → string.
Variable stringify_strings : list string → string.
Variable stringify_payload : list PayloadElement → string.
Variable locale : string.

Definition parseTable (tableData : PropsUIPromptConsentFormTable)
    : TableWithContext :=
  let id := cft_id tableData in
  let title := translate (cft_title tableData) locale in
  let description :=
    match cft_description tableData with
    | Some description => translate description locale
    | None => ""
    end in
  let deletedRowCount := 0 in
  let dataFrame := cft_data_frame tableData in
  let headCells := (λ column, column) <$> columnNames dataFrame in
  let head := {| head_cells := headCells |} in
  let body := {| body_rows := rows dataFrame |} in
  {| tbl_id := id;
     tbl_head := head;
     tbl_body := body;
     tbl_title := title;
     tbl_description := description;
     tbl_deletedRowCount := deletedRowCount;
     tbl_annotations := [];
     tbl_originalBody := body;
     tbl_deletedRows := [];
     tbl_visualizations := cft_visualizations tableData |}.

Definition parseTables (tablesData : list PropsUIPromptConsentFormTable)
    : list TableWithContext :=
  parseTable <$> tablesData.

Definition serializeTables (tables : list TableWithContext)
    : result (list PayloadElement) :=
  result_map (λ table,
                entry ←! serializeTable table;
                Ok (TableData entry.1 entry.2))
             tables.

Definition serializeDeletedMetaData (tables : list TableWithContext)
    : PayloadElement :=
  let rawData :=
    (λ table,
       "User deleted " +:+ pretty (tbl_deletedRowCount table)
       +:+ " rows from table: " +:+ tbl_id table)
    <$> filter (λ table, 0 < tbl_deletedRowCount table) tables in
  let data := stringify_strings rawData in
  UserOmissions data.

Definition serializeMetaData (tables metaTables : list TableWithContext)
    : result (list PayloadElement) :=
  metaData ←! serializeTables metaTables;
  Ok (metaData ++ [serializeDeletedMetaData tables]).

Definition serializeConsentData (tables metaTables : list TableWithContext)
    : result string :=
  tablesData ←! serializeTables tables;
  metaData ←! serializeMetaData tables metaTables;
  let array := tablesData ++ metaData in
  Ok (stringify_payload array).
End ConsentForm.

(** ** The form as a state machine

    The form owns [tables] and [metaTables]; it renders one container per
    element of [tables], which receives that table and its identifier as
    properties.  An event goes to the container at a position. *)

Record FormState := {
  fs_tables : list TableWithContext;
  fs_metaTables : list TableWithContext;
  fs_search : list SearchState
}.

Definition container_at (fs : FormState) (index : nat) : option ContainerState :=
  match fs_tables fs !! index, fs_search fs !! index with
  | Some table, Some state => Some {| cs_table := table; cs_state := state |}
  | _, _ => None
  end.

Section Form.
Variable newRegExp_i : string → result (string → bool).

(** The container at [index] handles [ev]; a table it hands to
    [updateTable] is stored by the form under the container's [id]
    property.  The second component records the update, if any. *)
Definition form_step (fs : FormState) (index : nat) (ev : Event)
    : FormState * option (nat * LedgerOp) :=
  match container_at fs index with
  | None => (fs, None)
  | Some st =>
      let id := tbl_id (cs_table st) in
      let (st', update) := container_step newRegExp_i st ev in
      ({| fs_tables :=
            match update with
            | Some _ => updateTable (fs_tables fs) id (cs_table st')
            | None => fs_tables fs
            end;
          fs_metaTables := fs_metaTables fs;
          fs_search := <[ index := cs_state st' ]> (fs_search fs) |},
       (λ op, (index, op)) <$> update)
  end.

(** A run: the final state and the updates performed, in order. *)
Fixpoint form_run (fs : FormState) (evs : list (nat * Event))
    : FormState * list (nat * LedgerOp) :=
  match evs with
  | [] => (fs, [])
  | (index, ev) :: evs' =>
      let (fs', update) := form_step fs index ev in
      let (fs'', updates) := form_run fs' evs' in
      (fs'', option_list update ++ updates)
  end.
End Form.

(** The form as first rendered from its parsed tables: every container with
    an empty query, no type filter and no filter set. *)
Definition mount (tables metaTables : list TableWithContext) : FormState :=
  {| fs_tables := tables;
     fs_metaTables := metaTables;
     fs_search := (λ _, cleared) <$> tables |}.

(** What an update does to the tables of the form. *)
Definition form_update (tables : list TableWithContext)
    (update : nat * LedgerOp) : list TableWithContext :=
  match tables !! update.1 with
  | Some table => updateTable tables (tbl_id table) (ledger_step table update.2)
  | None => tables
  end.

(** The operations of a run that came from the container at [index]. *)
Definition ops_at (index : nat) (updates : list (nat * LedgerOp))
    : list LedgerOp :=
  snd <$> filter (λ update, update.1 = index) updates.

(** The events of the search bar, the type menu and the debounce timer. *)
Definition is_search_event (ev : Event) : bool :=
  match ev with
  | OnSearch _ | OnDataTypeFilter _ | DebounceElapsed => true
  | DeleteClicked _ | UndoClicked => false
  end.

(** The row of the input at an index, as the specification words it: the
    mapping of each column name to the value of that column at the index. *)
Definition original_row (dataFrame : DataFrame) (row : nat)
    : gmap string JsValue :=
  list_to_map ((λ column, (column, frame_value dataFrame column row))
               <$> columnNames dataFrame).

(** A serialized record read back as JavaScript values. *)
Definition record_values (record : gmap string (option string))
    : gmap string JsValue :=
  (λ v, match v with Some s => JStr s | None => JUndefined end) <$> record.

(** ** Visualization data: the worker and the hook *)

(** Modelled from the spec: the types of [types/visualizations] are not part
    of the sources.  Chart data is a sequence of records, each with a sortable
    key [__x] and its series values; word-cloud data maps tokens to
    frequencies. *)
Record ChartItem := {
  item_x : JsValue;
  item_values : list (string * JsValue)
}.

Inductive VisualizationData :=
  | ChartVisualizationData (data : list ChartItem)
  | TextVisualizationData (words : list (string * Z)).

Inductive Status := loading | success | error.

Global Instance Status_eq_dec : EqDecision Status.
Proof. solve_decision. Defined.

Record WorkerMessage := {
  msg_status : Status;
  msg_visualizationData : option VisualizationData
}.

Inductive LogEntry :=
  | console_info (text : string) (err : option JsError)
  | console_error (text : string) (err : JsError).

(** [error instanceof RangeError && error.message === 'Invalid time value'] *)
Definition isInvalidTimeValue (e : JsError) : bool :=
  bool_decide (err_class e = ClsRangeError)
  && bool_decide (err_message e = "Invalid time value").

Section Worker.
(** The two preparation functions are not part of the sources. *)
Variable prepareChartData :
  TableWithContext → VisualizationType → result VisualizationData.
Variable prepareTextData :
  TableWithContext → VisualizationType → result VisualizationData.

(** The [try] block of [createVisualizationData]. *)
Definition createVisualizationData_body (table : option TableWithContext)
    (visualization : option VisualizationType) : result VisualizationData :=
  match table, visualization with
  | Some table, Some visualization =>
      if bool_decide (vis_type visualization ∈ ["line"; "bar"; "area"]) then
        prepareChartData table visualization
      else if bool_decide (vis_type visualization ∈ ["wordcloud"]) then
        prepareTextData table visualization
      else
        Throw {| err_class := ClsError;
                 err_message := "Visualization type "
                                +:+ vis_type visualization
                                +:+ " not supported" |}
  | _, _ =>
      Throw {| err_class := ClsError;
               err_message := "Table and visualization are required" |}
  end.

(** The [catch] block logs and throws the error again. *)
Definition createVisualizationData (table : option TableWithContext)
    (visualization : option VisualizationType)
    : result VisualizationData * list LogEntry :=
  match createVisualizationData_body table visualization with
  | Ok visualizationData => (Ok visualizationData, [])
  | Throw e =>
      (Throw e,
       [ if isInvalidTimeValue e then
           console_info
             "Info: Invalid time value encountered in createVisualizationData:"
             (Some e)
         else console_error "Error in createVisualizationData:" e ])
  end.

(** [self.onmessage]: the message posted back and what is logged. *)
Definition worker_onmessage (table : option TableWithContext)
    (visualization : option VisualizationType)
    : WorkerMessage * list LogEntry :=
  match createVisualizationData table visualization with
  | (Ok visualizationData, logs) =>
      ({| msg_status := success;
          msg_visualizationData := Some visualizationData |}, logs)
  | (Throw e, logs) =>
      ({| msg_status := error; msg_visualizationData := None |},
       logs ++ [ if isInvalidTimeValue e then console_info "" None
                 else console_error "Error in visualizationDataWorker:" e ])
  end.
End Worker.

(** The keys the hook drops: [null], [undefined] and the texts of an
    unparseable date or number. *)
Definition invalid_keys : list string :=
  [ "NaN-QNaN"; "NaN-Invalid Date"; "Invalid Date"; "NaN";
    "NaN-Invalid Date-NaN"; "Invalid Date-NaN-NaN"; "Invalid Date-NaN" ].

Definition valid_x (x : JsValue) : bool :=
  match x with
  | JNull | JUndefined => false
  | JStr s => bool_decide (s ∉ invalid_keys)
  | _ => true
  end.

(** [worker.onmessage] of [useVisualizationData]: the pair
    [[visualizationData, status]] the hook returns afterwards. *)
Definition hook_onmessage (msg : WorkerMessage)
    : option VisualizationData * Status :=
  match msg_status msg, msg_visualizationData msg with
  | error, _ | _, None => (None, error)
  | _, Some (ChartVisualizationData data) =>
      let cleanedData := filter (λ item, valid_x (item_x item) = true) data in
      if bool_decide (length cleanedData = 0%nat) then (None, success)
      else (Some (ChartVisualizationData cleanedData), success)
  | _, Some visualizationData => (Some visualizationData, success)
  end.

(** What the caller of the hook sees once the worker has answered. *)
Definition visualization_result
    (prepareChartData prepareTextData :
       TableWithContext → VisualizationType → result VisualizationData)
    (table : option TableWithContext)
    (visualization : option VisualizationType)
    : option VisualizationData * Status :=
  hook_onmessage
    (worker_onmessage prepareChartData prepareTextData table visualization).1.

(** ** The donation page ([donation_page.tsx]) *)

(** Modelled from the spec: the prompt types and their guards
    ([isPropsUIPromptConsentForm] and the like) belong to [types/prompts],
    which is not part of the sources.  A body is one of the prompts the
    page knows, or something else; of a consent form, the page reads the
    tables, which may be absent. *)
Inductive PromptBody :=
  | BodyFileInput
  | BodyConfirm
  | BodyConfirmWithLink
  | BodyConsentForm (tables : option (list PropsUIPromptConsentFormTable))
  | BodyRadioInput
  | BodyQuestionnaire
  | BodyUnknown.

(** [Array.from(new Set(values))]: the values without repetitions, each at
    the place of its first occurrence. *)
Fixpoint array_from_set (values : list JsValue) : list JsValue :=
  match values with
  | [] => []
  | value :: values' =>
      value :: filter (λ other, other ≠ value) (array_from_set values')
  end.

Section DonationPage.
(** [Object.values] lists the values of the own properties of an object in
    the order of its keys; that order is not recorded in a [Column]. *)
Variable Object_values : Column → list JsValue.

(** The memoised [uniqueTypes]. *)
Definition uniqueTypes (body : PromptBody) : list JsValue :=
  match body with
  | BodyConsentForm tables =>
      let tables := default [] tables in
      match tables with
      | [] => []
      | firstTable :: _ =>
          let data := cft_data_frame firstTable in
          let types := Object_values (frame_column data "Type") in
          array_from_set types
      end
  | _ => []
  end.
End DonationPage.

(** The number a key denotes when the key is an array index: the canonical
    decimal numeral of a number below 2^32 - 1. *)
Fixpoint parse_digits (acc : N) (key : string) : option N :=
  match key with
  | EmptyString => Some acc
  | String c key' =>
      let code := N_of_ascii c in
      if bool_decide (48 ≤ code ≤ 57)%N
      then parse_digits (10 * acc + (code - 48))%N key'
      else None
  end.

Definition array_index (key : string) : option N :=
  match parse_digits 0%N key with
  | Some n =>
      if bool_decide (pretty n = key ∧ (n < 2 ^ 32 - 1)%N) then Some n
      else None
  | None => None
  end.

(** An [Object.values] for a column of a data frame, whose keys are row
    numbers: the values of the keys that are array indices, in ascending
    order of the index, as the runtime lists them.  The values of the other
    keys follow; the runtime lists those in the order in which they were
    written, which a [Column] does not record, and the order in which the
    finite map enumerates them stands for it. *)
Definition indexed_entries (column : Column) : list (N * JsValue) :=
  omap (λ entry, match array_index entry.1 with
                 | Some n => Some (n, entry.2)
                 | None => None
                 end)
       (map_to_list column).

Definition other_entries (column : Column) : list (string * JsValue) :=
  filter (λ entry, array_index entry.1 = None) (map_to_list column).

Definition index_le (a b : N * JsValue) : Prop := (a.1 ≤ b.1)%N.

Global Instance index_le_dec : RelDecision index_le.
Proof. intros a b. unfold index_le. apply _. Defined.

Definition values_by_index (column : Column) : list JsValue :=
  (merge_sort index_le (indexed_entries column)).*2
  ++ (other_entries column).*2.

(** ** Example inputs *)

(** The table of the end-to-end scenario of the specification. *)
Definition scenario_rows : list PropsUITableRow :=
  [ {| row_id := "0"; row_cells := ["TypeA"; "x"] |};
    {| row_id := "1"; row_cells := ["TypeB"; "y"] |} ].

Definition scenario_table : TableWithContext :=
  {| tbl_id := "t";
     tbl_head := {| head_cells := ["Type"; "Value"] |};
     tbl_body := {| body_rows := scenario_rows |};
     tbl_title := "";
     tbl_description := "";
     tbl_deletedRowCount := 0;
     tbl_annotations := [];
     tbl_originalBody := {| body_rows := scenario_rows |};
     tbl_deletedRows := [];
     tbl_visualizations := None |}.

(** A row whose only cell is a dot followed by a letter. *)
Definition dot_row : PropsUITableRow :=
  {| row_id := "0"; row_cells := [".x"] |}.

(** A line chart, and a preparation that fails on a malformed date the way
    [Date.prototype.toISOString] does. *)
Definition line_chart : VisualizationType :=
  {| vis_type := "line"; vis_fields := [] |}.

Definition invalid_time_value : JsError :=
  {| err_class := ClsRangeError; err_message := "Invalid time value" |}.

Definition prepare_throws_invalid_time
    (table : TableWithContext) (visualization : VisualizationType)
    : result VisualizationData :=
  Throw invalid_time_value.

(** A preparation that returns one record whose key is the text of an
    unparseable date. *)
Definition prepare_invalid_date_key
    (table : TableWithContext) (visualization : VisualizationType)
    : result VisualizationData :=
  Ok (ChartVisualizationData
        [ {| item_x := JStr "Invalid Date"; item_values := [] |} ]).

(** A data frame with one column and one row, whose cell is [null]. *)
Definition null_frame : DataFrame := [ ("a", {[ "0" := JNull ]}) ].

Definition null_table : PropsUIPromptConsentFormTable :=
  {| cft_id := "t";
     cft_title := [];
     cft_description := None;
     cft_data_frame := null_frame;
     cft_visualizations := None |}.

(** A data frame of two columns and two rows that holds strings only. *)
Definition text_frame : DataFrame :=
  [ ("Type", {[ "0" := JStr "Likes"; "1" := JStr "Shares" ]});
    ("Value", {[ "0" := JStr "a"; "1" := JStr "b" ]}) ].

Definition text_table : PropsUIPromptConsentFormTable :=
  {| cft_id := "posts";
     cft_title := [];
     cft_description := None;
     cft_data_frame := text_frame;
     cft_visualizations := None |}.

(** A data frame that holds a number, a boolean, [null] and strings. *)
Definition mixed_frame : DataFrame :=
  [ ("Type", {[ "0" := JStr "Likes"; "1" := JNull ]});
    ("Count", {[ "0" := JNum 42; "1" := JBool true ]}) ].

Definition mixed_table : PropsUIPromptConsentFormTable :=
  {| cft_id := "counts";
     cft_title := [];
     cft_description := None;
     cft_data_frame := mixed_frame;
     cft_visualizations := None |}.

(** A data frame whose column "Type" repeats its values. *)
Definition types_frame : DataFrame :=
  [ ("Type", {[ "0" := JStr "Likes"; "1" := JStr "Shares";
                "2" := JStr "Likes"; "3" := JStr "Posts";
                "4" := JStr "Shares" ]}) ].

Definition types_table : PropsUIPromptConsentFormTable :=
  {| cft_id := "activity";
     cft_title := [];
     cft_description := None;
     cft_data_frame := types_frame;
     cft_visualizations := None |}.

(** A container on the scenario table in which nothing was searched. *)
Definition fresh_container : ContainerState :=
  {| cs_table := scenario_table;
     cs_state := {| ss_searchFilterIds := None;
                    ss_dataTypeFilter := None;
                    ss_search := "" |} |}.

(** A translator that ignores the bundle, to run [parseTable]. *)
Definition no_translation (text : Translatable) (locale : string) : string := "".

(** Two sessions on the scenario table that redact the same row: one
    searches for a text and deletes everything shown, the other filters on a
    type, types a query and deletes the row by its identifier. *)
Definition session_search_then_delete_shown : list (nat * Event) :=
  [ (0, OnSearch "x"); (0, DebounceElapsed); (0, DeleteClicked None) ]%nat.

Definition session_filter_then_delete_by_id : list (nat * Event) :=
  [ (0, OnDataTypeFilter "TypeB"); (0, OnSearch "y");
    (0, DeleteClicked (Some ["0"])); (0, DebounceElapsed) ]%nat.

(** The serializers of the runtime, left uninterpreted in the examples. *)
Definition no_stringify {A} (value : A) : string := "".

(** A container on the scenario table in which the query "x" was typed and
    the timer has not run yet, and the same container with the filter set of
    the search in place. *)
Definition typed_x : ContainerState :=
  {| cs_table := scenario_table;
     cs_state := {| ss_searchFilterIds := None;
                    ss_dataTypeFilter := None;
                    ss_search := "x" |} |}.

Definition searched_x : ContainerState :=
  {| cs_table := scenario_table;
     cs_state := {| ss_searchFilterIds := Some {[ "0" ]};
                    ss_dataTypeFilter := None;
                    ss_search := "x" |} |}.

(** A second table with the rows of the scenario and another identifier,
    and a session that redacts in both tables. *)
Definition second_table : TableWithContext :=
  {| tbl_id := "u";
     tbl_head := {| head_cells := ["Type"; "Value"] |};
     tbl_body := {| body_rows := scenario_rows |};
     tbl_title := "";
     tbl_description := "";
     tbl_deletedRowCount := 0;
     tbl_annotations := [];
     tbl_originalBody := {| body_rows := scenario_rows |};
     tbl_deletedRows := [];
     tbl_visualizations := None |}.

Definition session_in_two_tables : list (nat * Event) :=
  [ (0, DeleteClicked (Some ["0"])); (1, OnSearch "y");
    (1, DebounceElapsed); (1, DeleteClicked None); (0, UndoClicked) ]%nat.

(** A session of searching only, in both tables. *)
Definition session_of_searching : list (nat * Event) :=
  [ (0, OnSearch "x"); (0, DebounceElapsed); (1, OnDataTypeFilter "TypeB");
    (1, DebounceElapsed); (0, OnSearch "(("); (0, DebounceElapsed) ]%nat.

(** * Properties of the ledger *)

Lemma elem_of_deleteIds_batch (batch : list string) (ids : gset string) id :
  id ∈ foldl (λ ids id, ids ∪ {[ id ]}) ids batch ↔ id ∈ ids ∨ id ∈ batch.
Proof.
  revert ids. induction batch as [|x batch IH]; intros ids; simpl.
  - rewrite elem_of_nil. tauto.
  - rewrite IH, elem_of_union, elem_of_singleton, elem_of_cons. tauto.
Qed.

Lemma elem_of_deleteIds_from (deletedRows : list (list string))
    (ids : gset string) id :
  id ∈ foldl (λ ids deletedSet, foldl (λ ids id, ids ∪ {[ id ]}) ids deletedSet)
         ids deletedRows
  ↔ id ∈ ids ∨ in_batches deletedRows id.
Proof.
  unfold in_batches. revert ids.
  induction deletedRows as [|b ds IH]; intros ids; simpl.
  - rewrite Exists_nil. tauto.
  - rewrite IH, elem_of_deleteIds_batch, Exists_cons. tauto.
Qed.

Lemma elem_of_deleteIds deletedRows id :
  id ∈ deleteIds deletedRows ↔ in_batches deletedRows id.
Proof.
  unfold deleteIds. rewrite elem_of_deleteIds_from, elem_of_empty. tauto.
Qed.

Lemma filter_ext_pred {A} (P Q : A → Prop)
    `{∀ x, Decision (P x)} `{∀ x, Decision (Q x)} (l : list A) :
  (∀ x, x ∈ l → P x ↔ Q x) → filter P l = filter Q l.
Proof.
  induction l as [|x l IH]; intros HPQ; [done|].
  rewrite !filter_cons.
  assert (P x ↔ Q x) as Hx by (apply HPQ; left).
  assert (filter P l = filter Q l) as ->.
  { apply IH. intros y Hy. apply HPQ. by right. }
  destruct (decide (P x)), (decide (Q x)); tauto || done.
Qed.

Lemma deleteTableRows_rows table deletedRows :
  body_rows (tbl_body (deleteTableRows table deletedRows))
  = filter (λ row, ¬ in_batches deletedRows (row_id row))
           (body_rows (tbl_originalBody table)).
Proof.
  simpl. apply filter_ext_pred. intros row _.
  by rewrite elem_of_deleteIds.
Qed.

Lemma deleteTableRows_invariant table deletedRows :
  TableInvariant (deleteTableRows table deletedRows).
Proof.
  split; [|split].
  - exact (deleteTableRows_rows table deletedRows).
  - simpl. apply sublist_filter.
  - reflexivity.
Qed.

Lemma ledger_step_invariant table op : TableInvariant (ledger_step table op).
Proof. destruct op; apply deleteTableRows_invariant. Qed.

Lemma ledger_step_originalBody table op :
  tbl_originalBody (ledger_step table op) = tbl_originalBody table.
Proof. by destruct op. Qed.

(** C1. After every operation of every sequence of delete/undo operations,
    from any table: the visible rows are the original rows without the rows
    whose identifier is in some batch of the ledger, in the original order,
    and [deletedRowCount] is the number of original rows minus the number of
    visible rows.  The original rows stay those of the first table. *)
Theorem ledger_invariant_after_each_operation
    (table : TableWithContext) (ops : list LedgerOp) :
  Forall (λ table', TableInvariant table'
                    ∧ tbl_originalBody table' = tbl_originalBody table)
         (ledger_trace table ops).
Proof.
  revert table. induction ops as [|op ops IH]; intros table; simpl.
  - constructor.
  - constructor.
    + split; [apply ledger_step_invariant | apply ledger_step_originalBody].
    + eapply Forall_impl; [apply IH|]. intros table' [Hinv Horig].
      split; [done|]. by rewrite Horig, ledger_step_originalBody.
Qed.

Lemma deleteTableRows_same_ledger table :
  TableInvariant table → deleteTableRows table (tbl_deletedRows table) = table.
Proof.
  intros (Hrows & _ & Hcount).
  destruct table as [id hd [body] title descr cnt ann [orig] ds viz].
  simpl in *. unfold deleteTableRows; simpl.
  assert (filter (λ row, row_id row ∉ deleteIds ds) orig = body) as ->.
  { rewrite Hrows. apply filter_ext_pred. intros row _.
    by rewrite elem_of_deleteIds. }
  by rewrite Hcount.
Qed.

Lemma slice_0_m1_snoc {A} (xs : list A) (x : A) : slice_0_m1 (xs ++ [x]) = xs.
Proof.
  unfold slice_0_m1. rewrite length_app. simpl.
  replace (length xs + 1 - 1)%nat with (length xs) by lia.
  by rewrite take_app_length.
Qed.

Lemma deleteTableRows_twice table ds1 ds2 :
  deleteTableRows (deleteTableRows table ds1) ds2 = deleteTableRows table ds2.
Proof. reflexivity. Qed.

Lemma handleUndo_applyDeletion table rowIds :
  TableInvariant table → handleUndo (applyDeletion table rowIds) = table.
Proof.
  intros Hinv. unfold handleUndo, applyDeletion.
  rewrite deleteTableRows_twice. simpl tbl_deletedRows.
  rewrite slice_0_m1_snoc. by apply deleteTableRows_same_ledger.
Qed.

(** C2. On a table that satisfies the invariant of the data model, a
    deletion followed at once by an undo gives back the table, and so the
    prior visible rows in the same order; an undo on an empty ledger gives
    back the table unchanged. *)
Theorem delete_then_undo_restores (table : TableWithContext)
    (rowIds : list string) :
  TableInvariant table →
  handleUndo (applyDeletion table rowIds) = table
  ∧ body_rows (tbl_body (handleUndo (applyDeletion table rowIds)))
    = body_rows (tbl_body table)
  ∧ (tbl_deletedRows table = [] → handleUndo table = table).
Proof.
  intros Hinv.
  pose proof (handleUndo_applyDeletion table rowIds Hinv) as Hundo.
  split; [done|]. split; [by rewrite Hundo|].
  intros Hempty. unfold handleUndo. rewrite Hempty.
  change (slice_0_m1 []) with (@nil (list string)).
  rewrite <- Hempty. by apply deleteTableRows_same_ledger.
Qed.

Lemma scenario_table_invariant : TableInvariant scenario_table.
Proof. split; [|split]; [reflexivity | reflexivity | reflexivity]. Defined.

Lemma delete_then_undo_restores_witness :
  handleUndo (applyDeletion scenario_table ["0"]) = scenario_table
  ∧ body_rows (tbl_body (handleUndo (applyDeletion scenario_table ["0"])))
    = body_rows (tbl_body scenario_table)
  ∧ (tbl_deletedRows scenario_table = [] →
     handleUndo scenario_table = scenario_table).
Proof.
  apply (delete_then_undo_restores scenario_table ["0"]).
  exact scenario_table_invariant.
Defined.

(** Two ledgers that name the same identifiers give the same visible rows
    and the same count. *)
Lemma deleteTableRows_same_ids table ds1 ds2 :
  (∀ id, in_batches ds1 id ↔ in_batches ds2 id) →
  tbl_body (deleteTableRows table ds1) = tbl_body (deleteTableRows table ds2)
  ∧ tbl_deletedRowCount (deleteTableRows table ds1)
    = tbl_deletedRowCount (deleteTableRows table ds2).
Proof.
  intros Hsame.
  assert (filter (λ row, row_id row ∉ deleteIds ds1)
                 (body_rows (tbl_originalBody table))
          = filter (λ row, row_id row ∉ deleteIds ds2)
                   (body_rows (tbl_originalBody table))) as Heq.
  { apply filter_ext_pred. intros row _.
    rewrite !elem_of_deleteIds. by rewrite Hsame. }
  unfold deleteTableRows; simpl. by rewrite Heq.
Qed.

Lemma in_batches_app ds1 ds2 id :
  in_batches (ds1 ++ ds2) id ↔ in_batches ds1 id ∨ in_batches ds2 id.
Proof. unfold in_batches. apply Exists_app. Qed.

Lemma in_batches_singleton batch id : in_batches [batch] id ↔ id ∈ batch.
Proof.
  unfold in_batches. rewrite Exists_cons, Exists_nil. tauto.
Qed.

Lemma length_filter_complement {A} (P : A → Prop) `{∀ x, Decision (P x)}
    (l : list A) :
  (length (filter P l) + length (filter (λ x, ¬ P x) l) = length l)%nat.
Proof.
  induction l as [|x l IH]; [done|].
  rewrite !filter_cons.
  destruct (decide (P x)), (decide (¬ P x)); simpl; try lia; tauto.
Qed.

Lemma deleteTableRows_count table deletedRows :
  tbl_deletedRowCount (deleteTableRows table deletedRows)
  = Z.of_nat (length (filter (λ row, in_batches deletedRows (row_id row))
                             (body_rows (tbl_originalBody table)))).
Proof.
  pose proof (deleteTableRows_rows table deletedRows) as Hrows.
  pose proof (length_filter_complement
                (λ row, in_batches deletedRows (row_id row))
                (body_rows (tbl_originalBody table))) as Hlen.
  unfold deleteTableRows in *; simpl in *. rewrite Hrows. lia.
Qed.

Lemma filter_none {A} (P : A → Prop) `{∀ x, Decision (P x)} (l : list A) :
  (∀ x, x ∈ l → ¬ P x) → filter P l = [].
Proof.
  induction l as [|x l IH]; intros Hnone; [done|].
  rewrite filter_cons_False by (apply Hnone; left).
  apply IH. intros y Hy. apply Hnone. by right.
Qed.

(** With distinct identifiers, the rows whose identifier is [id] are the one
    row that carries it. *)
Lemma filter_unique_id (rows : list PropsUITableRow) (row : PropsUITableRow) :
  NoDup (row_id <$> rows) → row ∈ rows →
  filter (λ r, row_id r = row_id row) rows = [row].
Proof.
  induction rows as [|r rows IH]; intros Hnd Hin; [by inversion Hin|].
  rewrite fmap_cons in Hnd. apply NoDup_cons in Hnd as [Hnotin Hnd].
  rewrite filter_cons. apply elem_of_cons in Hin as [->|Hin].
  - rewrite decide_True by done. f_equal.
    apply filter_none. intros r' Hr' Heq.
    apply Hnotin. rewrite <- Heq. by apply list_elem_of_fmap_2.
  - rewrite decide_False.
    + by apply IH.
    + intros Heq. apply Hnotin. rewrite Heq. by apply list_elem_of_fmap_2.
Qed.

(** C3. Deleting an identifier twice is the same as deleting it once,
    whether the second mention is in the same batch or in a later one; the
    count is the number of original rows named by the ledger, not the sum of
    the batch sizes; and with distinct row identifiers, deleting the
    identifier of a row twice removes that one row and counts 1. *)
Theorem deletion_idempotent_on_identifiers (table : TableWithContext) :
  (∀ id batch,
     tbl_body (applyDeletion table (id :: id :: batch))
     = tbl_body (applyDeletion table (id :: batch))
     ∧ tbl_deletedRowCount (applyDeletion table (id :: id :: batch))
       = tbl_deletedRowCount (applyDeletion table (id :: batch)))
  ∧ (∀ id batch batch',
       tbl_body (applyDeletion (applyDeletion table (id :: batch)) (id :: batch'))
       = tbl_body (applyDeletion (applyDeletion table (id :: batch)) batch')
       ∧ tbl_deletedRowCount
           (applyDeletion (applyDeletion table (id :: batch)) (id :: batch'))
         = tbl_deletedRowCount
             (applyDeletion (applyDeletion table (id :: batch)) batch'))
  ∧ (∀ deletedRows,
       tbl_deletedRowCount (deleteTableRows table deletedRows)
       = Z.of_nat (length (filter (λ row, in_batches deletedRows (row_id row))
                                  (body_rows (tbl_originalBody table)))))
  ∧ (∀ row deletedRows,
       NoDup (row_id <$> body_rows (tbl_originalBody table)) →
       row ∈ body_rows (tbl_originalBody table) →
       deletedRows = [[row_id row; row_id row]]
       ∨ deletedRows = [[row_id row]; [row_id row]] →
       body_rows (tbl_body (deleteTableRows table deletedRows))
       = filter (λ r, r ≠ row) (body_rows (tbl_originalBody table))
       ∧ tbl_deletedRowCount (deleteTableRows table deletedRows) = 1).
Proof.
  split; [|split; [|split]].
  - intros id batch. apply deleteTableRows_same_ids. intros id'.
    rewrite !in_batches_app, !in_batches_singleton, !elem_of_cons. tauto.
  - intros id batch batch'. unfold applyDeletion.
    rewrite !deleteTableRows_twice. simpl tbl_deletedRows.
    apply deleteTableRows_same_ids. intros id'.
    rewrite !in_batches_app, !in_batches_singleton, !elem_of_cons. tauto.
  - apply deleteTableRows_count.
  - intros row deletedRows Hnd Hin Hds.
    assert (∀ id, in_batches deletedRows id ↔ id = row_id row) as Hids.
    { intros id. unfold in_batches.
      destruct Hds as [-> | ->];
        rewrite ?Exists_cons, Exists_nil, ?elem_of_cons, elem_of_nil; tauto. }
    split.
    + rewrite deleteTableRows_rows. apply filter_ext_pred. intros r Hr.
      rewrite Hids. split; [congruence|]. intros Hne Heq. apply Hne.
      assert (r ∈ filter (λ r, row_id r = row_id row)
                         (body_rows (tbl_originalBody table))) as Hr'
        by (by apply list_elem_of_filter).
      rewrite filter_unique_id in Hr' by done.
      by apply list_elem_of_singleton in Hr'.
    + rewrite deleteTableRows_count.
      rewrite (filter_ext_pred _ (λ r, row_id r = row_id row)).
      * by rewrite filter_unique_id.
      * intros r _. apply Hids.
Qed.

(** * Properties of the search *)

Lemma result_map_singleton {A B} (f : A → result B) (x : A) :
  result_map f [x] = match f x with Ok y => Ok [y] | Throw e => Throw e end.
Proof. simpl. by destruct (f x). Qed.

Lemma searchRows_filtering engine rows search dataTypeFilter :
  ¬ (trim search = "" ∧ dataTypeFilter = None) →
  searchRows engine rows search dataTypeFilter
  = match engine (escape_query (trim search)) with
    | Ok regex =>
        Ok (Ids (foldl (λ ids row,
                          if row_selected [regex] search dataTypeFilter row
                          then ids ∪ {[ row_id row ]} else ids) ∅ rows))
    | Throw e => Throw e
    end.
Proof.
  intros Hactive. unfold searchRows.
  destruct (bool_decide (trim search = "") && bool_decide (dataTypeFilter = None))
    eqn:Hguard.
  - apply andb_true_iff in Hguard as [H1 H2].
    apply bool_decide_eq_true in H1, H2. tauto.
  - rewrite result_map_singleton.
    by destruct (engine (escape_query (trim search))).
Qed.

Lemma trim_whitespace_only (search : string) :
  forallb is_trim_space (list_ascii_of_string search) = true →
  trim search = "".
Proof.
  unfold trim. induction search as [|c search IH]; simpl; [done|].
  intros [Hc Hrest]%andb_true_iff. rewrite Hc. by apply IH.
Qed.

(** C5. [searchRows] returns [undefined] exactly when the trimmed query is
    empty and the type filter is null, whatever the rows and the regular
    expression engine; otherwise it returns a set (which may be empty, and
    is not [undefined]) or the construction of the regular expression
    throws.  So [undefined] is returned for every query made of white space
    only (the empty query and the query of two spaces among them) with a
    null filter. *)
Theorem searchRows_unfiltered_iff
    (newRegExp_i : string → result (string → bool))
    (rows : list PropsUITableRow) (search : string)
    (dataTypeFilter : option string) :
  (searchRows newRegExp_i rows search dataTypeFilter = Ok Unfiltered
   ↔ trim search = "" ∧ dataTypeFilter = None)
  ∧ (¬ (trim search = "" ∧ dataTypeFilter = None) →
     (∃ ids, searchRows newRegExp_i rows search dataTypeFilter = Ok (Ids ids))
     ∨ (∃ e, searchRows newRegExp_i rows search dataTypeFilter = Throw e))
  ∧ Ids ∅ ≠ Unfiltered
  ∧ (∀ blank,
       forallb is_trim_space (list_ascii_of_string blank) = true →
       searchRows newRegExp_i rows blank None = Ok Unfiltered)
  ∧ searchRows newRegExp_i rows "" None = Ok Unfiltered
  ∧ searchRows newRegExp_i rows "  " None = Ok Unfiltered.
Proof.
  assert (∀ s, trim s = "" →
               searchRows newRegExp_i rows s None = Ok Unfiltered) as Hblank.
  { intros s Hs. unfold searchRows. by rewrite Hs. }
  assert (¬ (trim search = "" ∧ dataTypeFilter = None) →
          (∃ ids, searchRows newRegExp_i rows search dataTypeFilter
                  = Ok (Ids ids))
          ∨ (∃ e, searchRows newRegExp_i rows search dataTypeFilter = Throw e))
    as Hactive.
  { intros Hactive. rewrite searchRows_filtering by done.
    destruct (newRegExp_i (escape_query (trim search))) as [regex|e];
      [left|right]; by eexists. }
  split; [|split; [|split; [|split; [|split]]]].
  - split.
    + intros Hres.
      destruct (decide (trim search = "" ∧ dataTypeFilter = None)) as [|Hno];
        [done|].
      destruct (Hactive Hno) as [[ids Hids]|[e He]]; congruence.
    + intros [Hs ->]. by apply Hblank.
  - exact Hactive.
  - discriminate.
  - intros blank Hws. by apply Hblank, trim_whitespace_only.
  - by apply Hblank.
  - by apply Hblank.
Qed.

(** A query that matches nothing gives the empty set, not [undefined]. *)
Example no_match_is_an_empty_set :
  searchRows literal_engine scenario_rows "zzz" None = Ok (Ids ∅).
Proof. vm_compute. reflexivity. Qed.

Lemma cells_loop_existsb regex cells matchesSearch :
  cells_loop regex cells matchesSearch = existsb regex cells || matchesSearch.
Proof.
  induction cells as [|cell cells IH]; simpl; [done|].
  destruct (regex cell); [done|]. by rewrite IH.
Qed.

Lemma regexes_loop_single regex cells matchesSearch :
  regexes_loop [regex] cells matchesSearch
  = existsb regex cells || matchesSearch.
Proof.
  simpl. rewrite cells_loop_existsb.
  by destruct (existsb regex cells || matchesSearch).
Qed.

(** What one row contributes, with the single regular expression of the
    query: the query is empty or some cell passes the test, and the filter is
    null or equals the first cell. *)
Lemma dataType_check (cells : list string) (dataTypeFilter : option string) :
  (if bool_decide (dataTypeIndex cells ≠ -1)
      && (bool_decide (dataTypeFilter = None)
          || bool_decide (cells !! Z.to_nat (dataTypeIndex cells)
                          = dataTypeFilter))
   then true else bool_decide (dataTypeFilter = None)) = true
  ↔ dataTypeFilter = None ∨ head cells = dataTypeFilter.
Proof.
  destruct cells as [|c cells]; simpl.
  - rewrite bool_decide_eq_true. split; [tauto|]. intros [?|?]; done.
  - destruct dataTypeFilter as [f|]; simpl.
    + destruct (decide (c = f)) as [->|Hne].
      * rewrite bool_decide_eq_true_2 by done. tauto.
      * rewrite bool_decide_eq_false_2 by congruence. simpl.
        split; [done|]. intros [?|?]; congruence.
    + tauto.
Qed.

Lemma row_selected_single regex search dataTypeFilter row :
  row_selected [regex] search dataTypeFilter row = true
  ↔ row_passes regex search dataTypeFilter row.
Proof.
  unfold row_selected, row_passes. rewrite regexes_loop_single.
  rewrite andb_true_iff, orb_true_iff, bool_decide_eq_true.
  rewrite dataType_check, existsb_exists, Exists_exists.
  assert ((∃ x, In x (row_cells row) ∧ regex x = true)
          ↔ (∃ cell, cell ∈ row_cells row ∧ regex cell = true)) as ->.
  { split; intros (c & Hc & Ht); exists c; split; try done;
      by apply list_elem_of_In. }
  tauto.
Qed.

Lemma foldl_collect_ids (selected : PropsUITableRow → bool)
    (rows : list PropsUITableRow) (ids : gset string) :
  foldl (λ ids row, if selected row then ids ∪ {[ row_id row ]} else ids)
        ids rows
  = ids ∪ list_to_set (row_id <$> filter (λ row, selected row = true) rows).
Proof.
  revert ids. induction rows as [|row rows IH]; intros ids; simpl.
  - by rewrite (right_id_L ∅ (∪)).
  - rewrite IH, filter_cons. destruct (selected row) eqn:Hsel.
    + rewrite decide_True by done. rewrite fmap_cons, list_to_set_cons.
      by rewrite (assoc_L (∪)).
    + rewrite decide_False by congruence. done.
Qed.

(** The set [searchRows] returns, for any engine whose constructor accepts
    the escaped query. *)
Lemma searchRows_ids engine regex rows search dataTypeFilter :
  ¬ (trim search = "" ∧ dataTypeFilter = None) →
  engine (escape_query (trim search)) = Ok regex →
  searchRows engine rows search dataTypeFilter
  = Ok (Ids (list_to_set
               (row_id <$> filter (row_passes regex search dataTypeFilter)
                                  rows))).
Proof.
  intros Hactive Hregex. rewrite searchRows_filtering, Hregex by done.
  rewrite foldl_collect_ids, (left_id_L ∅ (∪)).
  rewrite (filter_ext_pred _ (row_passes regex search dataTypeFilter));
    [done|].
  intros row _. apply row_selected_single.
Qed.

(** The engine on an escaped query whose escaping is complete: a
    case-insensitive search for the query as a literal. *)
Lemma parse_only_literals (q : string) :
  only_literals q = true →
  parse_pattern q = Some (Lit <$> list_ascii_of_string q).
Proof.
  induction q as [|c q IH]; simpl; [done|].
  intros [Hc Hq]%andb_true_iff. apply negb_true_iff in Hc.
  assert (c ≠ "\"%char ∧ c ≠ "."%char) as [H1 H2].
  { split; intros ->; by vm_compute in Hc. }
  rewrite !bool_decide_eq_false_2 by done. rewrite Hc, IH by done. done.
Qed.

Lemma escaped_class_syntax (c : ascii) :
  in_escaped_class c = false → is_syntax_char c = false.
Proof.
  unfold in_escaped_class, is_syntax_char. intros Hc.
  apply bool_decide_eq_false in Hc. apply bool_decide_eq_false.
  intros Hs. apply Hc. apply list_elem_of_In. apply list_elem_of_In in Hs.
  simpl in *. tauto.
Qed.

Lemma parse_escape_query (q : string) :
  escape_complete q = true →
  parse_pattern (escape_query q) = Some (Lit <$> list_ascii_of_string q).
Proof.
  induction q as [|c q IH]; simpl; [done|].
  destruct (in_escaped_class c) eqn:Hc; intros Hq.
  - change (parse_pattern (String "\" (String c q)))
      with (if in_escaped_class c then (Lit c ::.) <$> parse_pattern q else None).
    rewrite Hc, parse_only_literals by done. done.
  - pose proof (escaped_class_syntax c Hc) as Hs.
    assert (c ≠ "\"%char ∧ c ≠ "."%char) as [H1 H2].
    { split; intros ->; by vm_compute in Hc. }
    change (parse_pattern (String c (escape_query q)))
      with (if bool_decide (c = "\"%char) then
              match escape_query q with
              | EmptyString => None
              | String d p'' =>
                  if in_escaped_class d then (Lit d ::.) <$> parse_pattern p''
                  else None
              end
            else if bool_decide (c = "."%char)
                 then (AnyChar ::.) <$> parse_pattern (escape_query q)
            else if is_syntax_char c then None
            else (Lit c ::.) <$> parse_pattern (escape_query q)).
    rewrite !bool_decide_eq_false_2 by done. rewrite Hs, IH by done. done.
Qed.

Lemma match_here_literal (q s : string) :
  match_here (Lit <$> list_ascii_of_string q) s = ci_prefix q s.
Proof.
  revert s. induction q as [|c q IH]; intros s; simpl.
  - by destruct s.
  - destruct s as [|d s]; [done|]. simpl. by rewrite IH.
Qed.

Lemma match_anywhere_literal (q s : string) :
  match_anywhere (Lit <$> list_ascii_of_string q) s = ci_contains s q.
Proof.
  induction s as [|d s IH]; simpl; rewrite match_here_literal; [done|].
  by rewrite IH.
Qed.

(** Where the escaping is complete, [searchRows] with the literal engine
    returns the set the specification describes. *)
Lemma searchRows_literal_when_escape_complete rows search dataTypeFilter :
  ¬ (trim search = "" ∧ dataTypeFilter = None) →
  escape_complete (trim search) = true →
  searchRows literal_engine rows search dataTypeFilter
  = Ok (Ids (spec_search rows search dataTypeFilter)).
Proof.
  intros Hactive Hcomplete.
  rewrite (searchRows_ids literal_engine
             (match_anywhere (Lit <$> list_ascii_of_string (trim search))))
    by (done || (unfold literal_engine; by rewrite parse_escape_query)).
  unfold spec_search.
  rewrite (filter_ext_pred _ (spec_row_matches search dataTypeFilter));
    [done|].
  intros row _.
  unfold spec_row_matches, row_passes. rewrite Exists_exists.
  by setoid_rewrite match_anywhere_literal.
Qed.

(** C4 at its failing input.  The query of two dots is escaped to
    [\..]: the second dot stays a wildcard, so the row whose only cell is
    [.x] is returned, although no cell contains two dots. *)
Theorem searchRows_unescaped_second_dot :
  escape_query (trim "..") = "\.."
  ∧ parse_pattern "\.." = Some [Lit "."; AnyChar]
  ∧ searchRows literal_engine [dot_row] ".." None = Ok (Ids {[ "0" ]})
  ∧ spec_search [dot_row] ".." None = ∅.
Proof.
  split; [reflexivity|]. split; [reflexivity|]. split.
  - rewrite (searchRows_ids literal_engine (match_anywhere [Lit "."; AnyChar]))
      by (done || (intros [H _]; by vm_compute in H)).
    rewrite filter_cons_True by (split; [right; by left | by left]).
    simpl. by rewrite (right_id_L ∅ (∪)).
  - unfold spec_search. rewrite filter_cons_False; [done|].
    intros [[H | (cell & Hcell & Hc)] _].
    + by vm_compute in H.
    + simpl in Hcell. apply list_elem_of_singleton in Hcell as ->.
      by vm_compute in Hc.
Qed.

(** * Properties of the visualization pipeline *)

Lemma worker_onmessage_throw prepareChartData prepareTextData
    table visualization e :
  createVisualizationData_body prepareChartData prepareTextData
    table visualization = Throw e →
  (worker_onmessage prepareChartData prepareTextData table visualization).1
  = {| msg_status := error; msg_visualizationData := None |}.
Proof.
  intros Hbody. unfold worker_onmessage, createVisualizationData.
  by rewrite Hbody.
Qed.

Lemma visualization_result_throw prepareChartData prepareTextData
    table visualization e :
  createVisualizationData_body prepareChartData prepareTextData
    table visualization = Throw e →
  visualization_result prepareChartData prepareTextData table visualization
  = (None, error).
Proof.
  intros Hbody. unfold visualization_result.
  by rewrite (worker_onmessage_throw _ _ _ _ e).
Qed.

(** C7. With a table and a descriptor present, the tag alone selects the
    branch: [line], [bar] and [area] run the chart preparation, [wordcloud]
    runs the text preparation, and every other tag throws the error
    "Visualization type ... not supported", which the worker posts as status
    [error] and the hook reports as status [error] without data. *)
Theorem createVisualizationData_dispatch
    (prepareChartData prepareTextData :
       TableWithContext → VisualizationType → result VisualizationData)
    (table : TableWithContext) (visualization : VisualizationType) :
  (vis_type visualization ∈ ["line"; "bar"; "area"] →
   (createVisualizationData prepareChartData prepareTextData
      (Some table) (Some visualization)).1
   = prepareChartData table visualization)
  ∧ (vis_type visualization = "wordcloud" →
     (createVisualizationData prepareChartData prepareTextData
        (Some table) (Some visualization)).1
     = prepareTextData table visualization)
  ∧ (vis_type visualization ∉ ["line"; "bar"; "area"; "wordcloud"] →
     (createVisualizationData prepareChartData prepareTextData
        (Some table) (Some visualization)).1
     = Throw {| err_class := ClsError;
                err_message := "Visualization type "
                               +:+ vis_type visualization
                               +:+ " not supported" |}
     ∧ (worker_onmessage prepareChartData prepareTextData
          (Some table) (Some visualization)).1
       = {| msg_status := error; msg_visualizationData := None |}
     ∧ visualization_result prepareChartData prepareTextData
         (Some table) (Some visualization)
       = (None, error)).
Proof.
  assert (∀ r : result VisualizationData,
            (match r with
             | Ok d => (Ok d, [])
             | Throw e =>
                 (Throw e,
                  [ if isInvalidTimeValue e then
                      console_info
                        "Info: Invalid time value encountered in createVisualizationData:"
                        (Some e)
                    else console_error "Error in createVisualizationData:" e ])
             end).1 = r) as Hfst by (by intros [d|e]).
  split; [|split].
  - intros Hchart. unfold createVisualizationData. rewrite Hfst. simpl.
    by rewrite bool_decide_eq_true_2.
  - intros Htext. unfold createVisualizationData. rewrite Hfst. simpl.
    rewrite Htext. done.
  - intros Hother.
    assert (createVisualizationData_body prepareChartData prepareTextData
              (Some table) (Some visualization)
            = Throw {| err_class := ClsError;
                       err_message := "Visualization type "
                                      +:+ vis_type visualization
                                      +:+ " not supported" |}) as Hbody.
    { simpl. rewrite !bool_decide_eq_false_2; [done|..];
        intros Hin; apply Hother; revert Hin;
        rewrite !elem_of_cons; tauto. }
    split; [|split].
    + unfold createVisualizationData. by rewrite Hfst.
    + by eapply worker_onmessage_throw.
    + by eapply visualization_result_throw.
Qed.

(** C6, as the claim has it, fails: a chart preparation that throws the
    range error "Invalid time value" ends with status [error] at the caller,
    not with [success]. *)
Lemma invalid_time_value_reports_error :
  isInvalidTimeValue invalid_time_value = true
  ∧ visualization_result prepare_throws_invalid_time prepare_throws_invalid_time
      (Some scenario_table) (Some line_chart)
    = (None, error)
  ∧ error ≠ success.
Proof. split; [reflexivity|]. split; [reflexivity|]. discriminate. Qed.

(** C6, amended.  Whatever the preparation throws, the worker posts status
    [error] without data and the caller sees status [error] without data; the
    range error "Invalid time value" differs from the other errors only in
    what is logged (two [console.info] lines, no [console.error]).  Status
    [success] without data is what the caller sees when the preparation
    returns chart data in which every record has a key the hook drops, as
    with a single record whose key is the text of an unparseable date. *)
Theorem invalid_time_value_only_changes_the_log
    (prepareChartData prepareTextData :
       TableWithContext → VisualizationType → result VisualizationData)
    (table : option TableWithContext)
    (visualization : option VisualizationType) :
  (∀ e,
     createVisualizationData_body prepareChartData prepareTextData
       table visualization = Throw e →
     (worker_onmessage prepareChartData prepareTextData table visualization).1
     = {| msg_status := error; msg_visualizationData := None |}
     ∧ visualization_result prepareChartData prepareTextData
         table visualization = (None, error)
     ∧ (worker_onmessage prepareChartData prepareTextData
          table visualization).2
       = if isInvalidTimeValue e then
           [ console_info
               "Info: Invalid time value encountered in createVisualizationData:"
               (Some e);
             console_info "" None ]
         else
           [ console_error "Error in createVisualizationData:" e;
             console_error "Error in visualizationDataWorker:" e ])
  ∧ (∀ data,
       createVisualizationData_body prepareChartData prepareTextData
         table visualization = Ok (ChartVisualizationData data) →
       Forall (λ item, valid_x (item_x item) = false) data →
       visualization_result prepareChartData prepareTextData
         table visualization = (None, success)).
Proof.
  split.
  - intros e Hbody. split; [|split].
    + by eapply worker_onmessage_throw.
    + by eapply visualization_result_throw.
    + unfold worker_onmessage, createVisualizationData. rewrite Hbody. simpl.
      by destruct (isInvalidTimeValue e).
  - intros data Hbody Hinvalid.
    unfold visualization_result, worker_onmessage, createVisualizationData.
    rewrite Hbody. simpl. unfold hook_onmessage. simpl.
    rewrite filter_none; [done|].
    intros item Hitem. rewrite Forall_forall in Hinvalid.
    rewrite (Hinvalid item Hitem). discriminate.
Qed.

Example sole_invalid_date_is_success_without_data :
  visualization_result prepare_invalid_date_key prepare_invalid_date_key
    (Some scenario_table) (Some line_chart)
  = (None, success).
Proof. reflexivity. Qed.

(** * Properties of the serialization *)

Lemma lodash_zip_same_length {A B} (xs : list A) (ys : list B) :
  length xs = length ys →
  lodash_zip xs ys = (λ kv, (Some kv.1, Some kv.2)) <$> zip xs ys.
Proof.
  revert ys. induction xs as [|x xs IH]; intros [|y ys] Hlen; try done.
  simpl in *. f_equal. apply IH. lia.
Qed.

Lemma serializeRow_fits row head :
  row_fits head row →
  serializeRow row head
  = Ok (lodash_fromPairs
          ((λ kv, (Some kv.1, Some kv.2))
           <$> zip (head_cells head) (row_cells row))).
Proof.
  intros Hfits. unfold serializeRow, assert.
  rewrite bool_decide_eq_true_2 by done. simpl.
  rewrite !list_fmap_id. by rewrite lodash_zip_same_length.
Qed.

Lemma serializeRow_misfit row head :
  ¬ row_fits head row →
  serializeRow row head
  = Throw {| err_class := ClsError;
             err_message :=
               "Number of cells in row (" +:+ pretty (length (row_cells row))
               +:+ ") should be equals to number of cells in head ("
               +:+ pretty (length (head_cells head)) +:+ ")" |}.
Proof.
  intros Hmis. unfold serializeRow, assert.
  by rewrite bool_decide_eq_false_2.
Qed.

Lemma result_map_ok {A B} (f : A → result B) (g : A → B) (xs : list A) :
  Forall (λ x, f x = Ok (g x)) xs → result_map f xs = Ok (g <$> xs).
Proof.
  induction 1 as [|x xs Hx _ IH]; simpl; [done|]. by rewrite Hx, IH.
Qed.

Lemma result_map_throw {A B} (f : A → result B) (xs : list A) :
  Exists (λ x, ∃ e, f x = Throw e) xs → ∃ e, result_map f xs = Throw e.
Proof.
  induction 1 as [x xs [e Hx]|x xs _ [e IH]]; simpl.
  - exists e. by rewrite Hx.
  - destruct (f x) as [y|e']; simpl; [|by eexists].
    exists e. by rewrite IH.
Qed.

Lemma result_map_ok_inv {A B} (f : A → result B) (xs : list A) (ys : list B) :
  result_map f xs = Ok ys → Forall2 (λ x y, f x = Ok y) xs ys.
Proof.
  revert ys. induction xs as [|x xs IH]; simpl; intros ys Hok.
  - injection Hok as <-. constructor.
  - destruct (f x) as [y|e] eqn:Hx; simpl in Hok; [|done].
    destruct (result_map f xs) as [ys'|e]; simpl in Hok; [|done].
    injection Hok as <-. constructor; [done|]. by apply IH.
Qed.

(** C9. A row is serialized only if it has as many cells as the head, and
    then every head cell is paired with the row cell at its position, with
    nothing cut off and nothing padded; a row of another width makes the
    assertion fail, which stops the serialization of the row and of its
    table; and when every row has the width of the head, the table is
    serialized, one record per row. *)
Theorem serializeRow_requires_head_width :
  (∀ row head record,
     serializeRow row head = Ok record →
     row_fits head row
     ∧ lodash_zip (head_cells head) (row_cells row)
       = (λ kv, (Some kv.1, Some kv.2))
         <$> zip (head_cells head) (row_cells row)
     ∧ record
       = lodash_fromPairs
           ((λ kv, (Some kv.1, Some kv.2))
            <$> zip (head_cells head) (row_cells row)))
  ∧ (∀ row head,
       ¬ row_fits head row →
       ∃ message,
         serializeRow row head
         = Throw {| err_class := ClsError; err_message := message |})
  ∧ (∀ table,
       Exists (λ row, ¬ row_fits (tbl_head table) row)
              (body_rows (tbl_body table)) →
       ∃ e, serializeTable table = Throw e)
  ∧ (∀ table,
       Forall (row_fits (tbl_head table)) (body_rows (tbl_body table)) →
       ∃ data,
         serializeTable table = Ok (tbl_id table, data)
         ∧ Forall2 (λ row record, serializeRow row (tbl_head table) = Ok record)
                   (body_rows (tbl_body table)) data).
Proof.
  split; [|split; [|split]].
  - intros row head record Hok.
    destruct (decide (row_fits head row)) as [Hfits|Hmis].
    + rewrite serializeRow_fits in Hok by done. injection Hok as <-.
      split; [done|]. split; [|done]. by apply lodash_zip_same_length.
    + by rewrite serializeRow_misfit in Hok.
  - intros row head Hmis. eexists. by apply serializeRow_misfit.
  - intros table Hmis. unfold serializeTable.
    destruct (result_map_throw (λ row, serializeRow row (tbl_head table))
                (body_rows (tbl_body table))) as [e He].
    + eapply Exists_impl; [exact Hmis|]. intros row Hrow.
      eexists. by apply serializeRow_misfit.
    + exists e. by rewrite He.
  - intros table Hfit. unfold serializeTable.
    destruct (result_map (λ row, serializeRow row (tbl_head table))
                (body_rows (tbl_body table))) as [data|e] eqn:Hmap.
    + exists data. split; [done|]. by apply result_map_ok_inv.
    + exfalso. revert Hmap.
      rewrite (result_map_ok _
                 (λ row, lodash_fromPairs
                           ((λ kv, (Some kv.1, Some kv.2))
                            <$> zip (head_cells (tbl_head table))
                                    (row_cells row)))); [done|].
      eapply Forall_impl; [exact Hfit|]. intros row Hrow.
      by apply serializeRow_fits.
Qed.

Lemma zip_with_image {A B} (f : A → B) (xs : list A) :
  zip xs (f <$> xs) = (λ x, (x, f x)) <$> xs.
Proof. induction xs as [|x xs IH]; simpl; [done|]. by f_equal. Qed.

Lemma lookup_foldl_insert (f : string → string) (names : list string)
    (result : gmap string (option string)) (column : string) :
  foldl (λ result pair, <[ default "undefined" pair.1 := pair.2 ]> result)
        result
        ((λ kv : string * string, (Some kv.1, Some kv.2))
         <$> ((λ name, (name, f name)) <$> names))
  !! column
  = if decide (column ∈ names) then Some (Some (f column))
    else result !! column.
Proof.
  revert result. induction names as [|name names IH]; intros result.
  - destruct (decide (column ∈ [])) as [Hin|_]; [|done].
    by apply elem_of_nil in Hin.
  - rewrite !fmap_cons. cbn [foldl]. rewrite IH. cbn [fst snd default].
    destruct (decide (column ∈ name :: names)) as [Hin|Hnotin].
    + destruct (decide (column ∈ names)) as [|Hnotin]; [done|].
      apply elem_of_cons in Hin as [->|]; [|done].
      by rewrite lookup_insert_eq.
    + rewrite decide_False by (intros Hin; apply Hnotin; by right).
      rewrite lookup_insert_ne; [done|].
      intros Heq. apply Hnotin. simpl in Heq. rewrite <- Heq. left.
Qed.

Lemma lookup_original_row dataFrame row column :
  original_row dataFrame row !! column
  = if decide (column ∈ columnNames dataFrame)
    then Some (frame_value dataFrame column row) else None.
Proof.
  unfold original_row. generalize (columnNames dataFrame) as names.
  induction names as [|name names IH].
  - destruct (decide (column ∈ [])) as [Hin|_]; [|done].
    by apply elem_of_nil in Hin.
  - rewrite fmap_cons. cbn [list_to_map foldr]. cbn [fst snd uncurry].
    destruct (decide (name = column)) as [->|Hne].
    + rewrite lookup_insert_eq. rewrite decide_True; [done|]. left.
    + rewrite lookup_insert_ne, IH by done.
      destruct (decide (column ∈ names)) as [Hin|Hnotin].
      * rewrite decide_True; [done|]. by right.
      * rewrite decide_False; [done|].
        rewrite elem_of_cons. intros [?|?]; congruence.
Qed.

(** The record of a parsed row: every column name mapped to the text of the
    value of that column. *)
Lemma serializeRow_parsed dataFrame row :
  serializeRow
    {| row_id := pretty row;
       row_cells := (λ column, rowCell dataFrame column row)
                    <$> columnNames dataFrame |}
    {| head_cells := (λ column, column) <$> columnNames dataFrame |}
  = Ok ((λ v, Some (String_of v)) <$> original_row dataFrame row).
Proof.
  rewrite serializeRow_fits by (unfold row_fits; simpl; by rewrite !length_fmap).
  f_equal. simpl. rewrite list_fmap_id, zip_with_image.
  apply map_eq. intros column. unfold lodash_fromPairs.
  rewrite (lookup_foldl_insert (λ column, rowCell dataFrame column row)).
  rewrite lookup_fmap, lookup_original_row, lookup_empty.
  by destruct (decide (column ∈ columnNames dataFrame)).
Qed.

Lemma serializeTable_parsed translate locale tableData :
  serializeTable (parseTable translate locale tableData)
  = Ok (cft_id tableData,
        (λ row, (λ v, Some (String_of v))
                <$> original_row (cft_data_frame tableData) row)
        <$> seq 0 (Z.to_nat (rowCount (cft_data_frame tableData) + 1))).
Proof.
  unfold serializeTable, parseTable, rows. simpl.
  rewrite (result_map_ok _
             (λ r, match r with
                   | {| row_id := _; row_cells := cells |} =>
                       lodash_fromPairs
                         ((λ kv, (Some kv.1, Some kv.2))
                          <$> zip (columnNames (cft_data_frame tableData)) cells)
                   end)).
  - simpl. f_equal. f_equal. rewrite <- list_fmap_compose.
    apply list_fmap_ext. intros _ row _. simpl.
    pose proof (serializeRow_parsed (cft_data_frame tableData) row) as Hrow.
    rewrite serializeRow_fits in Hrow
      by (unfold row_fits; simpl; by rewrite !length_fmap).
    simpl in Hrow. rewrite list_fmap_id in Hrow. by injection Hrow.
  - apply Forall_fmap, Forall_forall. intros row _. simpl.
    rewrite serializeRow_fits
      by (unfold row_fits; simpl; by rewrite !length_fmap).
    simpl. by rewrite list_fmap_id.
Qed.

(** C8, as the claim has it, fails: a [null] cell comes back as the text
    "null". *)
Lemma null_cell_is_serialized_as_text :
  serializeTable (parseTable no_translation "en" null_table)
  = Ok ("t", [ {[ "a" := Some "null" ]} ])
  ∧ record_values {[ "a" := Some "null" ]} = {[ "a" := JStr "null" ]}
  ∧ original_row null_frame 0 = {[ "a" := JNull ]}
  ∧ JStr "null" ≠ JNull.
Proof.
  split; [|split; [|split]].
  - vm_compute. reflexivity.
  - unfold record_values. by rewrite map_fmap_singleton.
  - reflexivity.
  - discriminate.
Qed.

(** C8, amended.  For a data frame whose numbers are safe integers,
    parsing it and serializing the table without redactions succeeds and
    yields one record per row number from 0 to [rowCount], each mapping
    every column name to the text [String] gives for the value of that
    column at that row number ("undefined" where the frame has none); read
    back as values, a record equals the row of the input when all the
    values of that row are strings. *)
Theorem parse_then_serialize_gives_cell_texts
    (translate : Translatable → string → string) (locale : string)
    (tableData : PropsUIPromptConsentFormTable) :
  safe_frame (cft_data_frame tableData) = true →
  ∃ data,
    serializeTable (parseTable translate locale tableData)
    = Ok (cft_id tableData, data)
    ∧ length data = Z.to_nat (rowCount (cft_data_frame tableData) + 1)
    ∧ ∀ index record,
        data !! index = Some record →
        record = (λ v, Some (String_of v))
                 <$> original_row (cft_data_frame tableData) index
        ∧ ((∀ column v,
              original_row (cft_data_frame tableData) index !! column = Some v →
              ∃ s, v = JStr s) →
           record_values record
           = original_row (cft_data_frame tableData) index).
Proof.
  intros _.
  eexists. split; [apply serializeTable_parsed|].
  split; [by rewrite length_fmap, length_seq|].
  intros index record Hrecord.
  apply list_lookup_fmap_Some in Hrecord as (row & -> & Hrow).
  apply lookup_seq in Hrow as [-> _]. simpl.
  split; [done|]. intros Hstrings.
  unfold record_values. apply map_eq. intros column.
  rewrite !lookup_fmap.
  destruct (original_row (cft_data_frame tableData) index !! column)
    as [v|] eqn:Hv; simpl; [|done].
  by destruct (Hstrings column v Hv) as [s ->].
Qed.

Lemma parse_then_serialize_gives_cell_texts_witness :
  ∃ data,
    serializeTable (parseTable no_translation "en" mixed_table)
    = Ok (cft_id mixed_table, data)
    ∧ length data = Z.to_nat (rowCount (cft_data_frame mixed_table) + 1)
    ∧ ∀ index record,
        data !! index = Some record →
        record = (λ v, Some (String_of v))
                 <$> original_row (cft_data_frame mixed_table) index
        ∧ ((∀ column v,
              original_row (cft_data_frame mixed_table) index !! column = Some v →
              ∃ s, v = JStr s) →
           record_values record
           = original_row (cft_data_frame mixed_table) index).
Proof.
  apply (parse_then_serialize_gives_cell_texts no_translation "en" mixed_table).
  vm_compute. reflexivity.
Defined.

(** The records of the frame with a number, a boolean and [null]. *)
Example mixed_frame_texts :
  serializeTable (parseTable no_translation "en" mixed_table)
  = Ok ("counts", [ {[ "Type" := Some "Likes"; "Count" := Some "42" ]};
                    {[ "Type" := Some "null"; "Count" := Some "true" ]} ])
  ∧ safe_frame mixed_frame = true
  ∧ safe_frame [ ("n", {[ "0" := JNum (2 ^ 64) ]}) ] = false.
Proof. split; [|split]; vm_compute; reflexivity. Qed.

(** * The search state and the donated data *)

Lemma container_step_table engine st ev :
  cs_table (container_step engine st ev).1
  = ledger_run (cs_table st) (option_list (container_step engine st ev).2).
Proof.
  destruct ev as [search|dataType| |rowIds|]; simpl; try done.
  - unfold debounce_elapsed.
    by destruct (searchRows engine _ _ _).
  - unfold handleDelete. by case_bool_decide.
Qed.

Lemma form_step_tables engine fs index ev :
  fs_tables (form_step engine fs index ev).1
  = foldl form_update (fs_tables fs)
          (option_list (form_step engine fs index ev).2)
  ∧ fs_metaTables (form_step engine fs index ev).1 = fs_metaTables fs.
Proof.
  unfold form_step, container_at.
  destruct (fs_tables fs !! index) as [table|] eqn:Htable; [|done].
  destruct (fs_search fs !! index) as [state|]; [|done].
  pose proof (container_step_table engine
                {| cs_table := table; cs_state := state |} ev) as Hstep.
  destruct (container_step engine {| cs_table := table; cs_state := state |} ev)
    as [st' [op|]]; simpl in *; [|done].
  unfold form_update. simpl. by rewrite Htable, Hstep.
Qed.

(** The tables of the form after a run are its tables before the run with
    the updates of the run applied: nothing else of the run reaches them. *)
Lemma form_run_tables engine fs evs :
  fs_tables (form_run engine fs evs).1
  = foldl form_update (fs_tables fs) (form_run engine fs evs).2
  ∧ fs_metaTables (form_run engine fs evs).1 = fs_metaTables fs.
Proof.
  revert fs. induction evs as [|[index ev] evs IH]; intros fs; simpl; [done|].
  destruct (form_step_tables engine fs index ev) as [Htables Hmeta].
  destruct (form_step engine fs index ev) as [fs' update].
  destruct (IH fs') as [Htables' Hmeta'].
  destruct (form_run engine fs' evs) as [fs'' updates].
  simpl in *. rewrite foldl_app, <- Htables. split; [done|congruence].
Qed.

(** C10. Two runs of the form from the same tables that perform the same
    sequence of deletions and undos end with the same tables, and so donate
    the same serialized data, whatever queries and type filters were
    entered, whatever sets of identifiers the searches produced, and
    whatever the regular expression engine answers. *)
Theorem search_state_does_not_reach_payload
    (newRegExp_i : string → result (string → bool))
    (stringify_strings : list string → string)
    (stringify_payload : list PayloadElement → string)
    (fs1 fs2 : FormState) (evs1 evs2 : list (nat * Event)) :
  fs_tables fs1 = fs_tables fs2 →
  fs_metaTables fs1 = fs_metaTables fs2 →
  (form_run newRegExp_i fs1 evs1).2 = (form_run newRegExp_i fs2 evs2).2 →
  fs_tables (form_run newRegExp_i fs1 evs1).1
  = fs_tables (form_run newRegExp_i fs2 evs2).1
  ∧ serializeTables (fs_tables (form_run newRegExp_i fs1 evs1).1)
    = serializeTables (fs_tables (form_run newRegExp_i fs2 evs2).1)
  ∧ serializeConsentData stringify_strings stringify_payload
      (fs_tables (form_run newRegExp_i fs1 evs1).1)
      (fs_metaTables (form_run newRegExp_i fs1 evs1).1)
    = serializeConsentData stringify_strings stringify_payload
        (fs_tables (form_run newRegExp_i fs2 evs2).1)
        (fs_metaTables (form_run newRegExp_i fs2 evs2).1).
Proof.
  intros Htables Hmeta Hupdates.
  destruct (form_run_tables newRegExp_i fs1 evs1) as [Ht1 Hm1].
  destruct (form_run_tables newRegExp_i fs2 evs2) as [Ht2 Hm2].
  assert (fs_tables (form_run newRegExp_i fs1 evs1).1
          = fs_tables (form_run newRegExp_i fs2 evs2).1) as Heq
    by (by rewrite Ht1, Ht2, Htables, Hupdates).
  split; [done|]. split; [by rewrite Heq|].
  by rewrite Heq, Hm1, Hm2, Hmeta.
Qed.

Lemma search_state_does_not_reach_payload_witness :
  fs_tables (form_run literal_engine (mount [scenario_table] [])
               session_search_then_delete_shown).1
  = fs_tables (form_run literal_engine (mount [scenario_table] [])
                 session_filter_then_delete_by_id).1
  ∧ serializeTables
      (fs_tables (form_run literal_engine (mount [scenario_table] [])
                    session_search_then_delete_shown).1)
    = serializeTables
        (fs_tables (form_run literal_engine (mount [scenario_table] [])
                      session_filter_then_delete_by_id).1)
  ∧ serializeConsentData no_stringify no_stringify
      (fs_tables (form_run literal_engine (mount [scenario_table] [])
                    session_search_then_delete_shown).1)
      (fs_metaTables (form_run literal_engine (mount [scenario_table] [])
                        session_search_then_delete_shown).1)
    = serializeConsentData no_stringify no_stringify
        (fs_tables (form_run literal_engine (mount [scenario_table] [])
                      session_filter_then_delete_by_id).1)
        (fs_metaTables (form_run literal_engine (mount [scenario_table] [])
                          session_filter_then_delete_by_id).1).
Proof.
  apply (search_state_does_not_reach_payload literal_engine
           no_stringify no_stringify
           (mount [scenario_table] []) (mount [scenario_table] [])
           session_search_then_delete_shown session_filter_then_delete_by_id).
  - reflexivity.
  - reflexivity.
  - vm_compute. reflexivity.
Defined.

(** * The tables the form can hold *)

Lemma filter_all {A} (P : A → Prop) `{∀ x, Decision (P x)} (l : list A) :
  (∀ x, x ∈ l → P x) → filter P l = l.
Proof.
  induction l as [|x l IH]; intros Hall; [done|].
  rewrite filter_cons_True by (apply Hall; left).
  f_equal. apply IH. intros y Hy. apply Hall. by right.
Qed.

Lemma parseTable_invariant translate locale tableData :
  TableInvariant (parseTable translate locale tableData)
  ∧ TableWidth (parseTable translate locale tableData).
Proof.
  split; [split; [|split]|]; simpl.
  - symmetry. apply filter_all. intros row _ Hin. by apply Exists_nil in Hin.
  - done.
  - lia.
  - unfold TableWidth, rows. simpl. apply Forall_fmap, Forall_forall.
    intros row _. unfold row_fits. simpl. by rewrite !length_fmap.
Qed.

(** The rows of a parsed table have distinct identifiers. *)
Lemma parsed_rows_distinct_ids (data : DataFrame) :
  NoDup (row_id <$> rows data).
Proof.
  unfold rows. rewrite <- list_fmap_compose.
  apply (NoDup_fmap_2 (λ row : nat, pretty row)), NoDup_seq.
Qed.

Lemma ledger_step_width table op :
  TableWidth table → TableWidth (ledger_step table op).
Proof. by destruct op. Qed.

(** A table that satisfies the invariant and has rows of the width of its
    head is serialized without a failed assertion. *)
Lemma serializeTable_succeeds table :
  TableInvariant table → TableWidth table →
  ∃ data, serializeTable table = Ok (tbl_id table, data)
          ∧ length data = length (body_rows (tbl_body table)).
Proof.
  intros (_ & Hsub & _) Hwidth.
  assert (Forall (row_fits (tbl_head table)) (body_rows (tbl_body table)))
    as Hfit.
  { apply Forall_forall. intros row Hrow.
    unfold TableWidth in Hwidth. rewrite Forall_forall in Hwidth.
    apply Hwidth. by eapply sublist_subseteq. }
  unfold serializeTable.
  rewrite (result_map_ok _
             (λ row, lodash_fromPairs
                       ((λ kv, (Some kv.1, Some kv.2))
                        <$> zip (head_cells (tbl_head table)) (row_cells row)))).
  - eexists. split; [done|]. by rewrite length_fmap.
  - eapply Forall_impl; [exact Hfit|]. intros row Hrow.
    by apply serializeRow_fits.
Qed.

(** [updateTable] stores the table at the position of the container that
    handed it over, when no earlier table has the same identifier. *)
Lemma updateTable_at tables index table newTable :
  tables !! index = Some table →
  (∀ j other, tables !! j = Some other → (j < index)%nat →
              tbl_id other ≠ tbl_id table) →
  updateTable tables (tbl_id table) newTable = <[ index := newTable ]> tables.
Proof.
  intros Hat Hfirst. unfold updateTable.
  destruct (list_find (λ t, tbl_id t = tbl_id table) tables) as [[j t]|] eqn:Hfind.
  - apply list_find_Some in Hfind as (Hj & Hid & Hbefore).
    destruct (decide (j = index)) as [->|Hne]; [done|].
    destruct (decide (j < index)%nat) as [Hlt|Hge].
    + by destruct (Hfirst j t Hj Hlt).
    + destruct (Hbefore index table Hat); [lia|done].
  - apply list_find_None in Hfind. rewrite Forall_forall in Hfind.
    destruct (Hfind table); [|done]. by eapply list_elem_of_lookup_2.
Qed.

Lemma updateTable_Forall (P : TableWithContext → Prop) tables id table :
  Forall P tables → P table → Forall P (updateTable tables id table).
Proof.
  intros Hall Hnew. unfold updateTable.
  destruct (list_find _ tables) as [[j t]|]; [|done].
  by apply Forall_insert.
Qed.

Lemma form_update_Forall (P : TableWithContext → Prop) tables update :
  (∀ table op, P table → P (ledger_step table op)) →
  Forall P tables → Forall P (form_update tables update).
Proof.
  intros Hstep Hall. unfold form_update.
  destruct (tables !! update.1) as [table|] eqn:Hat; [|done].
  apply updateTable_Forall; [done|]. apply Hstep.
  rewrite Forall_forall in Hall. apply Hall.
  by eapply list_elem_of_lookup_2.
Qed.

(** Whatever the user does, every table of a form that was rendered from
    parsed tables satisfies the invariant of the data model, and the tables
    are serialized without a failed assertion. *)
Lemma form_run_invariant engine translate locale tablesData metaTables evs :
  Forall (λ table, TableInvariant table ∧ TableWidth table)
         (fs_tables (form_run engine
                       (mount (parseTables translate locale tablesData)
                              metaTables) evs).1).
Proof.
  destruct (form_run_tables engine
              (mount (parseTables translate locale tablesData) metaTables) evs)
    as [-> _].
  generalize (form_run engine
                (mount (parseTables translate locale tablesData) metaTables)
                evs).2 as updates.
  intros updates. simpl.
  assert (Forall (λ table, TableInvariant table ∧ TableWidth table)
                 (parseTables translate locale tablesData)) as Hstart.
  { apply Forall_fmap, Forall_forall. intros tableData _.
    apply parseTable_invariant. }
  revert Hstart.
  generalize (parseTables translate locale tablesData) as tables.
  induction updates as [|update updates IH]; intros tables Hall; [done|].
  simpl. apply IH, form_update_Forall; [|done].
  intros table op [_ Hwidth].
  split; [apply ledger_step_invariant | by apply ledger_step_width].
Qed.

(** At the container: a deletion that reaches [updateTable], undone at once,
    gives back the table. *)
Lemma handleDelete_then_undo st rowIds op :
  TableInvariant (cs_table st) →
  (handleDelete st rowIds).2 = Some op →
  handleUndo (cs_table (handleDelete st rowIds).1) = cs_table st.
Proof.
  intros Hinv. unfold handleDelete. case_bool_decide; [|done].
  intros _. simpl. by apply handleUndo_applyDeletion.
Qed.

(** * The scenarios of the specification, run on the model *)

(** Deleting the batch ["0"] leaves the second row and counts 1; the undo
    restores both rows and counts 0. *)
Example end_to_end_scenario :
  body_rows (tbl_body (applyDeletion scenario_table ["0"]))
  = [ {| row_id := "1"; row_cells := ["TypeB"; "y"] |} ]
  ∧ tbl_deletedRowCount (applyDeletion scenario_table ["0"]) = 1
  ∧ body_rows (tbl_body (handleUndo (applyDeletion scenario_table ["0"])))
    = scenario_rows
  ∧ tbl_deletedRowCount (handleUndo (applyDeletion scenario_table ["0"])) = 0.
Proof. repeat split; reflexivity. Qed.

Lemma deletion_idempotent_on_identifiers_witness :
  body_rows (tbl_body (deleteTableRows scenario_table [["0"; "0"]]))
  = filter (λ r, r ≠ {| row_id := "0"; row_cells := ["TypeA"; "x"] |})
           scenario_rows
  ∧ tbl_deletedRowCount (deleteTableRows scenario_table [["0"; "0"]]) = 1.
Proof.
  apply (proj2 (proj2 (proj2
           (deletion_idempotent_on_identifiers scenario_table)))
           {| row_id := "0"; row_cells := ["TypeA"; "x"] |} [["0"; "0"]]).
  - compute_done.
  - compute_done.
  - left. reflexivity.
Defined.

(** The query "APPLE" matches the row with the cell "Apple" and not the one
    with the cell "banana". *)
Example search_is_case_insensitive :
  searchRows literal_engine
    [ {| row_id := "0"; row_cells := ["Apple"] |};
      {| row_id := "1"; row_cells := ["banana"] |} ] "APPLE" None
  = Ok (Ids {[ "0" ]}).
Proof. vm_compute. reflexivity. Qed.

(** With the type filter "Likes" and no query, exactly the rows whose first
    cell is "Likes" are returned. *)
Example type_filter_is_exact :
  searchRows literal_engine
    [ {| row_id := "0"; row_cells := ["Likes"; "a"] |};
      {| row_id := "1"; row_cells := ["Shares"; "Likes"] |};
      {| row_id := "2"; row_cells := ["Likes"; "b"] |} ] "" (Some "Likes")
  = Ok (Ids {[ "0"; "2" ]}).
Proof. vm_compute. reflexivity. Qed.

(** A row of one cell under a head of two cells stops the serialization. *)
Example narrow_row_fails_the_assertion :
  serializeTable
    (with_rows scenario_table [ {| row_id := "7"; row_cells := ["x"] |} ])
  = Throw {| err_class := ClsError;
             err_message := "Number of cells in row (1) should be equals to number of cells in head (2)" |}.
Proof. reflexivity. Qed.

(** An unknown tag is rejected, and the caller sees the status [error]. *)
Example pie_chart_is_not_supported :
  (createVisualizationData prepare_invalid_date_key prepare_invalid_date_key
     (Some scenario_table)
     (Some {| vis_type := "pie"; vis_fields := [] |})).1
  = Throw {| err_class := ClsError;
             err_message := "Visualization type pie not supported" |}
  ∧ visualization_result prepare_invalid_date_key prepare_invalid_date_key
      (Some scenario_table) (Some {| vis_type := "pie"; vis_fields := [] |})
    = (None, error).
Proof. split; reflexivity. Qed.

(** A frame of strings comes back as it went in. *)
Example text_frame_round_trip :
  serializeTable (parseTable no_translation "en" text_table)
  = Ok ("posts",
        [ {[ "Type" := Some "Likes"; "Value" := Some "a" ]};
          {[ "Type" := Some "Shares"; "Value" := Some "b" ]} ])
  ∧ record_values {[ "Type" := Some "Likes"; "Value" := Some "a" ]}
    = original_row text_frame 0
  ∧ record_values {[ "Type" := Some "Shares"; "Value" := Some "b" ]}
    = original_row text_frame 1.
Proof. repeat split; vm_compute; reflexivity. Qed.

(** * Further properties of the ledger *)

Lemma filter_full_length {A} (P : A → Prop) `{∀ x, Decision (P x)}
    (l : list A) :
  length (filter P l) = length l → filter P l = l.
Proof.
  induction l as [|x l IH]; [done|].
  rewrite filter_cons. destruct (decide (P x)) as [HP|HP]; simpl.
  - intros Hlen. f_equal. apply IH. lia.
  - intros Hlen. pose proof (length_filter P l). lia.
Qed.

(** X1. Whatever the table and the ledger, the count [deleteTableRows]
    stores lies between 0 and the number of original rows; it is 0 exactly
    when every original row is visible, and it is the number of original
    rows exactly when no row is visible. *)
Theorem deletedRowCount_bounds (table : TableWithContext)
    (deletedRows : list (list string)) :
  0 ≤ tbl_deletedRowCount (deleteTableRows table deletedRows)
    ≤ Z.of_nat (length (body_rows (tbl_originalBody table)))
  ∧ (tbl_deletedRowCount (deleteTableRows table deletedRows) = 0
     ↔ body_rows (tbl_body (deleteTableRows table deletedRows))
       = body_rows (tbl_originalBody table))
  ∧ (tbl_deletedRowCount (deleteTableRows table deletedRows)
     = Z.of_nat (length (body_rows (tbl_originalBody table)))
     ↔ body_rows (tbl_body (deleteTableRows table deletedRows)) = []).
Proof.
  unfold deleteTableRows. simpl.
  set (rows := filter (λ row, row_id row ∉ deleteIds deletedRows)
                      (body_rows (tbl_originalBody table))).
  assert (length rows ≤ length (body_rows (tbl_originalBody table)))%nat
    as Hle by apply length_filter.
  split; [lia|]. split.
  - split.
    + intros Hzero. apply filter_full_length. fold rows. lia.
    + intros Heq. rewrite Heq. lia.
  - split.
    + intros Hall. apply length_zero_iff_nil. lia.
    + intros Hnil. rewrite Hnil. simpl. lia.
Qed.

Lemma in_batches_slice deletedRows id :
  in_batches (slice_0_m1 deletedRows) id → in_batches deletedRows id.
Proof.
  unfold in_batches, slice_0_m1. rewrite !Exists_exists.
  intros (batch & Hin & Hid). exists batch. split; [|done].
  by eapply subseteq_take.
Qed.

Lemma deletion_removes_body table batch :
  TableInvariant table →
  body_rows (tbl_body (applyDeletion table batch))
  = filter (λ row, row_id row ∉ batch) (body_rows (tbl_body table)).
Proof.
  intros (Hrows & _ & _).
  unfold applyDeletion. rewrite deleteTableRows_rows, Hrows.
  rewrite list_filter_filter. apply filter_ext_pred. intros row _.
  rewrite in_batches_app, in_batches_singleton. tauto.
Qed.

(** X2. On a table that satisfies the invariant, a deletion removes from the
    visible rows exactly those whose identifier is in the batch, keeps the
    others in their order, and raises the count by the number of rows it
    removed; an undo never hides a row that was visible. *)
Theorem deletion_removes_undo_restores (table : TableWithContext)
    (batch : list string) :
  TableInvariant table →
  body_rows (tbl_body (applyDeletion table batch))
  = filter (λ row, row_id row ∉ batch) (body_rows (tbl_body table))
  ∧ tbl_deletedRowCount (applyDeletion table batch)
    = tbl_deletedRowCount table
      + Z.of_nat (length (filter (λ row, row_id row ∈ batch)
                                 (body_rows (tbl_body table))))
  ∧ sublist (body_rows (tbl_body table))
            (body_rows (tbl_body (handleUndo table))).
Proof.
  intros (Hrows & _ & Hcount).
  assert (body_rows (tbl_body (applyDeletion table batch))
          = filter (λ row, row_id row ∉ batch) (body_rows (tbl_body table)))
    as Hdel.
  { unfold applyDeletion. rewrite deleteTableRows_rows, Hrows.
    rewrite list_filter_filter. apply filter_ext_pred. intros row _.
    rewrite in_batches_app, in_batches_singleton. tauto. }
  split; [done|]. split.
  - pose proof (length_filter_complement (λ row, row_id row ∈ batch)
                  (body_rows (tbl_body table))) as Hlen.
    cbv beta in Hlen. rewrite Hcount.
    change (tbl_deletedRowCount (applyDeletion table batch))
      with (Z.of_nat (length (body_rows (tbl_originalBody table)))
            - Z.of_nat (length (body_rows
                                  (tbl_body (applyDeletion table batch))))).
    rewrite Hdel. lia.
  - unfold handleUndo. rewrite deleteTableRows_rows, Hrows.
    rewrite <- (list_filter_filter_l
                  (λ row, ¬ in_batches (tbl_deletedRows table) (row_id row))
                  (λ row, ¬ in_batches (slice_0_m1 (tbl_deletedRows table))
                            (row_id row))).
    + apply sublist_filter.
    + intros row Hnot Hin. apply Hnot. by apply in_batches_slice.
Qed.

Lemma deletion_removes_undo_restores_witness :
  body_rows (tbl_body (applyDeletion scenario_table ["1"]))
  = filter (λ row, row_id row ∉ ["1"]) (body_rows (tbl_body scenario_table))
  ∧ tbl_deletedRowCount (applyDeletion scenario_table ["1"])
    = tbl_deletedRowCount scenario_table
      + Z.of_nat (length (filter (λ row, row_id row ∈ ["1"])
                                 (body_rows (tbl_body scenario_table))))
  ∧ sublist (body_rows (tbl_body scenario_table))
            (body_rows (tbl_body (handleUndo scenario_table))).
Proof.
  apply (deletion_removes_undo_restores scenario_table ["1"]).
  exact scenario_table_invariant.
Defined.

Lemma slice_0_m1_take {A} (xs : list A) (n : nat) :
  (n ≤ length xs)%nat → slice_0_m1 (take n xs) = take (n - 1) xs.
Proof.
  intros Hn. unfold slice_0_m1. rewrite length_take, take_take. f_equal. lia.
Qed.

Lemma handleUndo_iter table n :
  (0 < n)%nat →
  Nat.iter n handleUndo table
  = deleteTableRows table
      (take (length (tbl_deletedRows table) - n) (tbl_deletedRows table)).
Proof.
  induction n as [|n IH]; [lia|]. intros _. simpl.
  destruct n as [|n].
  - simpl. unfold handleUndo, slice_0_m1. done.
  - rewrite IH by lia. unfold handleUndo at 1.
    rewrite deleteTableRows_twice. simpl tbl_deletedRows.
    rewrite slice_0_m1_take by lia. do 2 f_equal. lia.
Qed.

(** X3. Undoing [n] times in a row, [n] at least 1, drops the last [n]
    batches of the ledger; once [n] reaches the number of batches, every
    original row is visible again, the count is 0 and the ledger is empty,
    however many more undos follow. *)
Theorem undo_n_times (table : TableWithContext) (n : nat) :
  (0 < n)%nat →
  Nat.iter n handleUndo table
  = deleteTableRows table
      (take (length (tbl_deletedRows table) - n) (tbl_deletedRows table))
  ∧ ((length (tbl_deletedRows table) ≤ n)%nat →
     body_rows (tbl_body (Nat.iter n handleUndo table))
     = body_rows (tbl_originalBody table)
     ∧ tbl_deletedRowCount (Nat.iter n handleUndo table) = 0
     ∧ tbl_deletedRows (Nat.iter n handleUndo table) = []).
Proof.
  intros Hn. split; [by apply handleUndo_iter|].
  intros Hall. rewrite handleUndo_iter by done.
  replace (length (tbl_deletedRows table) - n)%nat with 0%nat by lia.
  rewrite take_0.
  assert (body_rows (tbl_body (deleteTableRows table []))
          = body_rows (tbl_originalBody table)) as Hbody.
  { rewrite deleteTableRows_rows. apply filter_all.
    intros row _ Hin. by apply Exists_nil in Hin. }
  split; [done|]. split; [|done].
  change (tbl_deletedRowCount (deleteTableRows table []))
    with (Z.of_nat (length (body_rows (tbl_originalBody table)))
          - Z.of_nat (length (body_rows (tbl_body (deleteTableRows table []))))).
  rewrite Hbody. lia.
Qed.

Lemma undo_n_times_witness :
  Nat.iter 2 handleUndo
    (applyDeletion (applyDeletion scenario_table ["0"]) ["1"])
  = deleteTableRows
      (applyDeletion (applyDeletion scenario_table ["0"]) ["1"])
      (take (length [["0"]; ["1"]] - 2) [["0"]; ["1"]])
  ∧ ((length [["0"]; ["1"]] ≤ 2)%nat →
     body_rows (tbl_body (Nat.iter 2 handleUndo
        (applyDeletion (applyDeletion scenario_table ["0"]) ["1"])))
     = scenario_rows
     ∧ tbl_deletedRowCount (Nat.iter 2 handleUndo
         (applyDeletion (applyDeletion scenario_table ["0"]) ["1"])) = 0
     ∧ tbl_deletedRows (Nat.iter 2 handleUndo
         (applyDeletion (applyDeletion scenario_table ["0"]) ["1"])) = []).
Proof.
  apply (undo_n_times
           (applyDeletion (applyDeletion scenario_table ["0"]) ["1"]) 2).
  lia.
Defined.

(** X4. The visible rows and the count do not depend on how the deleted
    identifiers are spread over the batches: two batches in either order,
    or merged into one, give the same rows and the same count, and so does
    any reordering of the ledger. *)
Theorem batches_commute_and_merge (table : TableWithContext)
    (deletedRows : list (list string)) (batch1 batch2 : list string) :
  (tbl_body (deleteTableRows table (deletedRows ++ [batch1; batch2]))
   = tbl_body (deleteTableRows table (deletedRows ++ [batch2; batch1]))
   ∧ tbl_deletedRowCount
       (deleteTableRows table (deletedRows ++ [batch1; batch2]))
     = tbl_deletedRowCount
         (deleteTableRows table (deletedRows ++ [batch2; batch1])))
  ∧ (tbl_body (deleteTableRows table (deletedRows ++ [batch1; batch2]))
     = tbl_body (deleteTableRows table (deletedRows ++ [batch1 ++ batch2]))
     ∧ tbl_deletedRowCount
         (deleteTableRows table (deletedRows ++ [batch1; batch2]))
       = tbl_deletedRowCount
           (deleteTableRows table (deletedRows ++ [batch1 ++ batch2])))
  ∧ (∀ reordered,
       reordered ≡ₚ deletedRows →
       tbl_body (deleteTableRows table reordered)
       = tbl_body (deleteTableRows table deletedRows)
       ∧ tbl_deletedRowCount (deleteTableRows table reordered)
         = tbl_deletedRowCount (deleteTableRows table deletedRows)).
Proof.
  split; [|split].
  - apply deleteTableRows_same_ids. intros id. unfold in_batches.
    rewrite !Exists_app, !Exists_cons, !Exists_nil. tauto.
  - apply deleteTableRows_same_ids. intros id. unfold in_batches.
    rewrite !Exists_app, !Exists_cons, !Exists_nil, elem_of_app. tauto.
  - intros reordered Hperm. apply deleteTableRows_same_ids. intros id.
    unfold in_batches. rewrite !Exists_exists.
    split; intros (batch & Hin & Hid); exists batch; split; try done.
    + by rewrite <- Hperm.
    + by rewrite Hperm.
Qed.




(** After a deletion, an empty batch and an undo, the deletion is undone:
    the empty batch left no entry in the ledger. *)
Example empty_batch_is_not_recorded :
  cs_table
    (container_step literal_engine
       (container_step literal_engine
          (container_step literal_engine fresh_container
             (DeleteClicked (Some ["0"]))).1
          (DeleteClicked (Some []))).1
       UndoClicked).1
  = scenario_table.
Proof. vm_compute. reflexivity. Qed.

(** * The rendered view *)

Lemma same_id_same_row (rows : list PropsUITableRow) (r1 r2 : PropsUITableRow) :
  NoDup (row_id <$> rows) → r1 ∈ rows → r2 ∈ rows →
  row_id r1 = row_id r2 → r1 = r2.
Proof.
  intros Hnd H1 H2 Hid.
  assert (r1 ∈ filter (λ r, row_id r = row_id r2) rows) as Hin
    by (by apply list_elem_of_filter).
  rewrite filter_unique_id in Hin by done.
  by apply list_elem_of_singleton in Hin.
Qed.

(** X6. On a table that satisfies the invariant, the rendered view under a
    filter set holds exactly the original rows that are not deleted and whose
    identifier is in the set, in the original order: a deleted row is never
    shown, whatever the set.  The view keeps the count, the ledger and the
    original rows of the table, and without a filter set it is the table. *)
Theorem searchedTable_never_shows_deleted_rows (table : TableWithContext)
    (ids : gset string) :
  TableInvariant table →
  body_rows (tbl_body (searchedTable table (Some ids)))
  = filter (λ row, row_id row ∈ ids
                   ∧ ¬ in_batches (tbl_deletedRows table) (row_id row))
           (body_rows (tbl_originalBody table))
  ∧ sublist (body_rows (tbl_body (searchedTable table (Some ids))))
            (body_rows (tbl_body table))
  ∧ (∀ row, row ∈ body_rows (tbl_body (searchedTable table (Some ids))) →
            ¬ in_batches (tbl_deletedRows table) (row_id row))
  ∧ tbl_deletedRowCount (searchedTable table (Some ids))
    = tbl_deletedRowCount table
  ∧ tbl_deletedRows (searchedTable table (Some ids)) = tbl_deletedRows table
  ∧ tbl_originalBody (searchedTable table (Some ids))
    = tbl_originalBody table
  ∧ searchedTable table None = table.
Proof.
  intros (Hrows & _ & _). simpl.
  assert (filter (λ row, row_id row ∈ ids) (body_rows (tbl_body table))
          = filter (λ row, row_id row ∈ ids
                           ∧ ¬ in_batches (tbl_deletedRows table) (row_id row))
                   (body_rows (tbl_originalBody table))) as Heq.
  { rewrite Hrows at 1. by rewrite list_filter_filter. }
  split; [done|]. split; [apply sublist_filter|].
  split; [|done].
  intros row Hrow. rewrite Heq in Hrow.
  apply list_elem_of_filter in Hrow. tauto.
Qed.

Lemma searchedTable_never_shows_deleted_rows_witness :
  body_rows (tbl_body (searchedTable (applyDeletion scenario_table ["0"])
                         (Some {[ "0"; "1" ]})))
  = filter (λ row, row_id row ∈ ({[ "0"; "1" ]} : gset string)
                   ∧ ¬ in_batches [["0"]] (row_id row))
           scenario_rows
  ∧ sublist (body_rows (tbl_body (searchedTable
                                    (applyDeletion scenario_table ["0"])
                                    (Some {[ "0"; "1" ]}))))
            (body_rows (tbl_body (applyDeletion scenario_table ["0"])))
  ∧ (∀ row, row ∈ body_rows (tbl_body (searchedTable
                                          (applyDeletion scenario_table ["0"])
                                          (Some {[ "0"; "1" ]}))) →
            ¬ in_batches [["0"]] (row_id row))
  ∧ tbl_deletedRowCount (searchedTable (applyDeletion scenario_table ["0"])
                           (Some {[ "0"; "1" ]}))
    = tbl_deletedRowCount (applyDeletion scenario_table ["0"])
  ∧ tbl_deletedRows (searchedTable (applyDeletion scenario_table ["0"])
                       (Some {[ "0"; "1" ]}))
    = [["0"]]
  ∧ tbl_originalBody (searchedTable (applyDeletion scenario_table ["0"])
                        (Some {[ "0"; "1" ]}))
    = tbl_originalBody scenario_table
  ∧ searchedTable (applyDeletion scenario_table ["0"]) None
    = applyDeletion scenario_table ["0"].
Proof.
  apply (searchedTable_never_shows_deleted_rows
           (applyDeletion scenario_table ["0"]) {[ "0"; "1" ]}).
  apply deleteTableRows_invariant.
Defined.

(** X7. After the debounce timer has run a search that is active and whose
    regular expression was accepted, on a table that satisfies the invariant
    and whose original rows have distinct identifiers, the rendered view
    holds exactly the visible rows that pass the search, in their order. *)
Theorem view_after_search_is_matching_visible_rows
    (newRegExp_i : string → result (string → bool)) (regex : string → bool)
    (st : ContainerState) :
  TableInvariant (cs_table st) →
  NoDup (row_id <$> body_rows (tbl_originalBody (cs_table st))) →
  ¬ (trim (ss_search (cs_state st)) = ""
     ∧ ss_dataTypeFilter (cs_state st) = None) →
  newRegExp_i (escape_query (trim (ss_search (cs_state st)))) = Ok regex →
  body_rows (tbl_body
    (searchedTable (cs_table (debounce_elapsed newRegExp_i st))
       (ss_searchFilterIds (cs_state (debounce_elapsed newRegExp_i st)))))
  = filter (row_passes regex (ss_search (cs_state st))
                       (ss_dataTypeFilter (cs_state st)))
           (body_rows (tbl_body (cs_table st))).
Proof.
  intros (Hrows & Hsub & _) Hnd Hactive Hregex.
  unfold debounce_elapsed.
  rewrite (searchRows_ids newRegExp_i regex) by done. simpl.
  apply filter_ext_pred. intros row Hrow.
  assert (row ∈ body_rows (tbl_originalBody (cs_table st))) as Horig
    by (by eapply sublist_subseteq).
  rewrite elem_of_list_to_set, list_elem_of_fmap. split.
  - intros (row' & Hid & Hrow'). apply list_elem_of_filter in Hrow' as [Hp Hin].
    by rewrite (same_id_same_row _ row row' Hnd Horig Hin Hid).
  - intros Hp. exists row. split; [done|]. by apply list_elem_of_filter.
Qed.

Lemma view_after_search_is_matching_visible_rows_witness :
  body_rows (tbl_body
    (searchedTable (cs_table (debounce_elapsed literal_engine typed_x))
       (ss_searchFilterIds (cs_state (debounce_elapsed literal_engine typed_x)))))
  = filter (row_passes (match_anywhere [Lit "x"]) "x" None) scenario_rows.
Proof.
  apply (view_after_search_is_matching_visible_rows literal_engine
           (match_anywhere [Lit "x"]) typed_x).
  - exact scenario_table_invariant.
  - compute_done.
  - intros [H _]. vm_compute in H. discriminate H.
  - reflexivity.
Defined.

(** X8. "Delete all" (a deletion without identifiers) on a table that
    satisfies the invariant: when no row is shown, nothing happens and
    nothing is handed to [updateTable]; otherwise the batch is the
    identifiers of the rows shown, in order, none of those rows stays
    visible, the search state is cleared, and, when the visible rows have
    distinct identifiers, every visible row that was not shown stays. *)
Theorem delete_all_deletes_what_is_shown (st : ContainerState) :
  TableInvariant (cs_table st) →
  (body_rows (tbl_body (searchedTable (cs_table st)
                          (ss_searchFilterIds (cs_state st)))) = [] →
   handleDelete st None = (st, None))
  ∧ (body_rows (tbl_body (searchedTable (cs_table st)
                            (ss_searchFilterIds (cs_state st)))) ≠ [] →
     (handleDelete st None).2
     = Some (ApplyDeletion
               (row_id <$> body_rows (tbl_body
                  (searchedTable (cs_table st)
                     (ss_searchFilterIds (cs_state st))))))
     ∧ cs_state (handleDelete st None).1 = cleared
     ∧ (∀ row,
          row ∈ body_rows (tbl_body (searchedTable (cs_table st)
                                       (ss_searchFilterIds (cs_state st)))) →
          row ∉ body_rows (tbl_body (cs_table (handleDelete st None).1)))
     ∧ (NoDup (row_id <$> body_rows (tbl_body (cs_table st))) →
        body_rows (tbl_body (cs_table (handleDelete st None).1))
        = filter (λ row,
                    row ∉ body_rows (tbl_body
                            (searchedTable (cs_table st)
                               (ss_searchFilterIds (cs_state st)))))
                 (body_rows (tbl_body (cs_table st))))).
Proof.
  intros Hinv.
  set (shown := body_rows (tbl_body (searchedTable (cs_table st)
                                       (ss_searchFilterIds (cs_state st))))).
  assert (shown ⊆ body_rows (tbl_body (cs_table st))) as Hshown.
  { unfold shown. destruct (ss_searchFilterIds (cs_state st)); simpl; [|done].
    apply list_subseteq_filter. }
  assert (body_rows (tbl_body (applyDeletion (cs_table st) (row_id <$> shown)))
          = filter (λ row, row_id row ∉ row_id <$> shown)
                   (body_rows (tbl_body (cs_table st)))) as Hbody.
  { apply (deletion_removes_body _ _ Hinv). }
  split.
  - intros Hnone. unfold handleDelete. fold shown. rewrite Hnone. done.
  - intros Hsome.
    assert (handleDelete st None
            = ({| cs_table := applyDeletion (cs_table st) (row_id <$> shown);
                  cs_state := cleared |},
               Some (ApplyDeletion (row_id <$> shown)))) as ->.
    { unfold handleDelete. fold shown.
      assert (0 < length (row_id <$> shown))%nat as Hlen.
      { rewrite length_fmap. destruct shown; [done|simpl; lia]. }
      rewrite bool_decide_eq_true_2 by done.
      by rewrite bool_decide_eq_true_2 by apply length_fmap. }
    cbn [fst snd cs_table cs_state].
    split; [done|]. split; [done|]. split.
    + intros row Hrow. rewrite Hbody, list_elem_of_filter.
      intros [Hnot _]. apply Hnot. by apply list_elem_of_fmap_2.
    + intros Hnd. rewrite Hbody. apply filter_ext_pred. intros row Hrow.
      split.
      * intros Hnot Hin. apply Hnot. by apply list_elem_of_fmap_2.
      * intros Hnot Hin. apply Hnot.
        apply list_elem_of_fmap in Hin as (row' & Hid & Hrow').
        by rewrite (same_id_same_row _ row row' Hnd Hrow (Hshown _ Hrow') Hid).
Qed.

Lemma delete_all_deletes_what_is_shown_witness :
  (body_rows (tbl_body (searchedTable (cs_table searched_x)
                          (ss_searchFilterIds (cs_state searched_x)))) = [] →
   handleDelete searched_x None = (searched_x, None))
  ∧ (body_rows (tbl_body (searchedTable (cs_table searched_x)
                            (ss_searchFilterIds (cs_state searched_x)))) ≠ [] →
     (handleDelete searched_x None).2
     = Some (ApplyDeletion
               (row_id <$> body_rows (tbl_body
                  (searchedTable (cs_table searched_x)
                     (ss_searchFilterIds (cs_state searched_x))))))
     ∧ cs_state (handleDelete searched_x None).1 = cleared
     ∧ (∀ row,
          row ∈ body_rows (tbl_body (searchedTable (cs_table searched_x)
                                       (ss_searchFilterIds (cs_state searched_x)))) →
          row ∉ body_rows (tbl_body (cs_table (handleDelete searched_x None).1)))
     ∧ (NoDup (row_id <$> body_rows (tbl_body (cs_table searched_x))) →
        body_rows (tbl_body (cs_table (handleDelete searched_x None).1))
        = filter (λ row,
                    row ∉ body_rows (tbl_body
                            (searchedTable (cs_table searched_x)
                               (ss_searchFilterIds (cs_state searched_x)))))
                 (body_rows (tbl_body (cs_table searched_x))))).
Proof.
  apply (delete_all_deletes_what_is_shown searched_x).
  exact scenario_table_invariant.
Defined.

(** What "delete all" does in the scenario with the row "0" shown. *)
Example delete_all_under_a_search :
  handleDelete searched_x None
  = ({| cs_table := applyDeletion scenario_table ["0"]; cs_state := cleared |},
     Some (ApplyDeletion ["0"])).
Proof. vm_compute. reflexivity. Qed.

(** * Further properties of the search *)

(** X9. Whatever the regular expression engine, a set returned by
    [searchRows] holds only identifiers of the rows it was given, so it is
    empty for an empty row list; and adding a type filter to a query never
    adds an identifier. *)
Theorem searchRows_returns_row_identifiers
    (newRegExp_i : string → result (string → bool))
    (rows : list PropsUITableRow) (search : string)
    (dataTypeFilter : option string) :
  (∀ ids,
     searchRows newRegExp_i rows search dataTypeFilter = Ok (Ids ids) →
     ∀ id, id ∈ ids → ∃ row, row ∈ rows ∧ row_id row = id)
  ∧ (∀ ids,
       searchRows newRegExp_i [] search dataTypeFilter = Ok (Ids ids) →
       ids = ∅)
  ∧ (∀ ids idsFiltered dataType,
       searchRows newRegExp_i rows search None = Ok (Ids ids) →
       searchRows newRegExp_i rows search (Some dataType)
       = Ok (Ids idsFiltered) →
       idsFiltered ⊆ ids).
Proof.
  assert (∀ rows' f ids,
            searchRows newRegExp_i rows' search f = Ok (Ids ids) →
            ∃ regex,
              newRegExp_i (escape_query (trim search)) = Ok regex
              ∧ ids = list_to_set
                        (row_id <$> filter (row_passes regex search f) rows'))
    as Hshape.
  { intros rows' f ids Hres.
    destruct (decide (trim search = "" ∧ f = None)) as [[Hs ->]|Hactive].
    - unfold searchRows in Hres. by rewrite Hs in Hres.
    - destruct (newRegExp_i (escape_query (trim search))) as [regex|e] eqn:He.
      + exists regex. split; [done|].
        rewrite (searchRows_ids _ regex) in Hres by done. congruence.
      + rewrite searchRows_filtering, He in Hres by done. done. }
  split; [|split].
  - intros ids Hres id Hid.
    destruct (Hshape _ _ _ Hres) as (regex & _ & ->).
    apply elem_of_list_to_set, list_elem_of_fmap in Hid as (row & -> & Hrow).
    apply list_elem_of_filter in Hrow as [_ Hrow]. by exists row.
  - intros ids Hres. by destruct (Hshape _ _ _ Hres) as (regex & _ & ->).
  - intros ids idsFiltered dataType Hres HresF.
    destruct (Hshape _ _ _ Hres) as (regex & Hregex & ->).
    destruct (Hshape _ _ _ HresF) as (regex' & Hregex' & ->).
    assert (regex' = regex) as -> by congruence.
    intros id Hid.
    apply elem_of_list_to_set, list_elem_of_fmap in Hid as (row & -> & Hrow).
    apply list_elem_of_filter in Hrow as [[Hq _] Hrow].
    apply elem_of_list_to_set, list_elem_of_fmap_2, list_elem_of_filter.
    split; [|done]. split; [done|by left].
Qed.

(** X10. With an empty query and a type filter, and an engine that accepts
    the empty pattern, [searchRows] returns exactly the identifiers of the
    rows whose first cell equals the filter, whatever the expression
    matches; a row without cells is never among them. *)
Theorem type_filter_selects_first_cell
    (newRegExp_i : string → result (string → bool)) (regex : string → bool)
    (rows : list PropsUITableRow) (search dataType : string) :
  trim search = "" →
  newRegExp_i "" = Ok regex →
  searchRows newRegExp_i rows search (Some dataType)
  = Ok (Ids (list_to_set
               (row_id <$> filter (λ row, head (row_cells row) = Some dataType)
                                  rows)))
  ∧ (∀ row, row_cells row = [] →
            searchRows newRegExp_i [row] search (Some dataType)
            = Ok (Ids ∅)).
Proof.
  intros Hblank Hregex.
  assert (∀ rows',
            searchRows newRegExp_i rows' search (Some dataType)
            = Ok (Ids (list_to_set
                         (row_id <$> filter (λ row, head (row_cells row)
                                                    = Some dataType) rows'))))
    as Hsel.
  { intros rows'. rewrite (searchRows_ids _ regex).
    - rewrite (filter_ext_pred _ (λ row, head (row_cells row) = Some dataType));
        [done|].
      intros row _. unfold row_passes. split; [|by intros; split; [left|right]].
      intros [_ [?|?]]; done.
    - intros [_ ?]; done.
    - by rewrite Hblank. }
  split; [apply Hsel|].
  intros row Hcells. rewrite Hsel, filter_cons_False; [done|].
  by rewrite Hcells.
Qed.

Lemma type_filter_selects_first_cell_witness :
  searchRows literal_engine scenario_rows "  " (Some "TypeB")
  = Ok (Ids (list_to_set
               (row_id <$> filter (λ row, head (row_cells row) = Some "TypeB")
                                  scenario_rows)))
  ∧ (∀ row, row_cells row = [] →
            searchRows literal_engine [row] "  " (Some "TypeB")
            = Ok (Ids ∅)).
Proof.
  apply (type_filter_selects_first_cell literal_engine (match_anywhere [])
           scenario_rows "  " "TypeB").
  - reflexivity.
  - reflexivity.
Defined.

(** X11. With the literal engine, for an active search whose query has no
    syntax character after its first escaped character (in particular a
    query with at most one special character), [searchRows] returns exactly
    the identifiers of the rows that have a cell containing the trimmed
    query as a literal substring up to case (or any row, when the trimmed
    query is empty) and whose first cell equals the type filter, if one is
    set. *)
Theorem literal_search_when_escape_complete (rows : list PropsUITableRow)
    (search : string) (dataTypeFilter : option string) :
  ¬ (trim search = "" ∧ dataTypeFilter = None) →
  escape_complete (trim search) = true →
  searchRows literal_engine rows search dataTypeFilter
  = Ok (Ids (spec_search rows search dataTypeFilter))
  ∧ (∀ id, id ∈ spec_search rows search dataTypeFilter
           ↔ ∃ row, row ∈ rows ∧ row_id row = id
                    ∧ spec_row_matches search dataTypeFilter row).
Proof.
  intros Hactive Hcomplete.
  split; [by apply searchRows_literal_when_escape_complete|].
  intros id. unfold spec_search.
  rewrite elem_of_list_to_set, list_elem_of_fmap. split.
  - intros (row & -> & Hrow). apply list_elem_of_filter in Hrow as [Hm Hin].
    by exists row.
  - intros (row & Hin & <- & Hm). exists row. split; [done|].
    by apply list_elem_of_filter.
Qed.

Lemma literal_search_when_escape_complete_witness :
  searchRows literal_engine scenario_rows " a.B " (Some "TypeA")
  = Ok (Ids (spec_search scenario_rows " a.B " (Some "TypeA")))
  ∧ (∀ id, id ∈ spec_search scenario_rows " a.B " (Some "TypeA")
           ↔ ∃ row, row ∈ scenario_rows ∧ row_id row = id
                    ∧ spec_row_matches " a.B " (Some "TypeA") row).
Proof.
  apply (literal_search_when_escape_complete scenario_rows " a.B "
           (Some "TypeA")).
  - intros [_ H]. discriminate H.
  - reflexivity.
Defined.

(** * Parsing *)

Lemma rows_length (data : DataFrame) :
  length (rows data) = Z.to_nat (rowCount data + 1).
Proof. unfold rows. by rewrite length_fmap, length_seq. Qed.

(** X12. The rows [rows] builds from a data frame: there are as many as the
    first column has entries (one row without cells when the frame has no
    column, none when the first column is empty); their identifiers are the
    decimal numerals 0, 1, 2, ... in order, hence distinct; and every row
    has one cell per column, also for the row numbers a column has no entry
    for, whose cell is the text "undefined". *)
Theorem rows_shape (data : DataFrame) :
  length (rows data)
  = match data with
    | [] => 1%nat
    | (_, firstColumn) :: _ => size firstColumn
    end
  ∧ row_id <$> rows data = (λ row : nat, pretty row) <$> seq 0 (length (rows data))
  ∧ NoDup (row_id <$> rows data)
  ∧ Forall (λ row, length (row_cells row) = length data) (rows data)
  ∧ (∀ (index : nat) row column (position : nat),
       rows data !! index = Some row →
       columnNames data !! position = Some column →
       frame_column data column !! pretty index = None →
       row_cells row !! position = Some "undefined").
Proof.
  split; [|split; [|split; [|split]]].
  - rewrite rows_length. unfold rowCount, columnCount, columnNames.
    destruct data as [|[name firstColumn] data]; [done|].
    rewrite bool_decide_eq_false_2 by (simpl; lia).
    simpl. rewrite bool_decide_eq_true_2 by done. lia.
  - rewrite rows_length. unfold rows. by rewrite <- list_fmap_compose.
  - apply parsed_rows_distinct_ids.
  - unfold rows. apply Forall_fmap, Forall_forall. intros row _. simpl.
    unfold columnNames. by rewrite !length_fmap.
  - intros index row column position Hrow Hcolumn Hnone.
    unfold rows in Hrow.
    apply list_lookup_fmap_Some in Hrow as (n & -> & Hn).
    apply lookup_seq in Hn as [-> _]. simpl.
    rewrite list_lookup_fmap, Hcolumn. simpl.
    unfold rowCell, frame_value. by rewrite Hnone.
Qed.

Lemma ledger_run_invariant table ops :
  TableInvariant table → TableInvariant (ledger_run table ops).
Proof.
  revert table. induction ops as [|op ops IH]; intros table Hinv; [done|].
  simpl. apply IH, ledger_step_invariant.
Qed.

Lemma ledger_run_frame table ops :
  tbl_id (ledger_run table ops) = tbl_id table
  ∧ tbl_head (ledger_run table ops) = tbl_head table
  ∧ tbl_originalBody (ledger_run table ops) = tbl_originalBody table.
Proof.
  revert table. induction ops as [|op ops IH]; intros table; [done|].
  simpl. destruct (IH (ledger_step table op)) as (-> & -> & ->).
  by destruct op.
Qed.

Lemma filter_fmap_comm {A B} (f : A → B) (P : B → Prop)
    `{∀ y, Decision (P y)} (l : list A) :
  filter P (f <$> l) = f <$> filter (λ x, P (f x)) l.
Proof.
  induction l as [|x l IH]; [done|].
  rewrite fmap_cons, !filter_cons. simpl.
  destruct (decide (P (f x))); by rewrite IH.
Qed.

Lemma result_map_ok_on {A B C} (f : B → result C) (g : A → B) (h : A → C)
    (l : list A) :
  (∀ x, x ∈ l → f (g x) = Ok (h x)) →
  result_map f (g <$> l) = Ok (h <$> l).
Proof.
  induction l as [|x l IH]; intros Hok; [done|].
  rewrite !fmap_cons. cbn [result_map]. rewrite Hok by left.
  cbn [result_bind].
  rewrite IH by (intros y Hy; apply Hok; by right). done.
Qed.

(** X13. Redacted rows never reach the donated data: after any sequence of
    deletions and undos on a table parsed from a data frame whose numbers
    are safe integers, [serializeTable] succeeds and yields, in order, the
    records of exactly the row numbers that no batch of the ledger names,
    each record mapping the column names to the texts of the values of the
    input at that row number. *)
Theorem redacted_rows_never_reach_payload
    (translate : Translatable → string → string) (locale : string)
    (tableData : PropsUIPromptConsentFormTable) (ops : list LedgerOp) :
  safe_frame (cft_data_frame tableData) = true →
  serializeTable (ledger_run (parseTable translate locale tableData) ops)
  = Ok (cft_id tableData,
        (λ row : nat,
           (λ v, Some (String_of v))
           <$> original_row (cft_data_frame tableData) row)
        <$> filter (λ row : nat,
                      ¬ in_batches
                          (tbl_deletedRows
                             (ledger_run
                                (parseTable translate locale tableData) ops))
                          (pretty row))
                   (seq 0 (Z.to_nat (rowCount (cft_data_frame tableData) + 1)))).
Proof.
  intros _.
  set (table := parseTable translate locale tableData).
  destruct (ledger_run_frame table ops) as (Hid & Hhead & Horig).
  destruct (ledger_run_invariant table ops) as (Hrows & _ & _).
  { apply parseTable_invariant. }
  unfold serializeTable. rewrite Hid, Hhead, Hrows, Horig.
  simpl. unfold rows. rewrite filter_fmap_comm. simpl.
  rewrite (result_map_ok_on _ _
             (λ row : nat,
                (λ v, Some (String_of v))
                <$> original_row (cft_data_frame tableData) row)); [done|].
  intros row _. apply serializeRow_parsed.
Qed.

Lemma redacted_rows_never_reach_payload_witness :
  serializeTable
    (ledger_run (parseTable no_translation "en" mixed_table)
       [ApplyDeletion ["1"]; ApplyDeletion ["0"]; UndoLast])
  = Ok (cft_id mixed_table,
        (λ row : nat,
           (λ v, Some (String_of v))
           <$> original_row (cft_data_frame mixed_table) row)
        <$> filter (λ row : nat,
                      ¬ in_batches
                          (tbl_deletedRows
                             (ledger_run
                                (parseTable no_translation "en" mixed_table)
                                [ApplyDeletion ["1"]; ApplyDeletion ["0"];
                                 UndoLast]))
                          (pretty row))
                   (seq 0 (Z.to_nat (rowCount (cft_data_frame mixed_table) + 1)))).
Proof.
  apply (redacted_rows_never_reach_payload no_translation "en" mixed_table
           [ApplyDeletion ["1"]; ApplyDeletion ["0"]; UndoLast]).
  vm_compute. reflexivity.
Defined.

(** In that session the row with the number stays and the other is
    withheld. *)
Example redaction_of_the_mixed_frame :
  serializeTable
    (ledger_run (parseTable no_translation "en" mixed_table)
       [ApplyDeletion ["1"]; ApplyDeletion ["0"]; UndoLast])
  = Ok ("counts", [ {[ "Type" := Some "Likes"; "Count" := Some "42" ]} ]).
Proof. vm_compute. reflexivity. Qed.

(** X14. A parsed table is fresh and well formed: its ledger is empty, its
    count is 0 and its visible rows are its original rows, so that it
    satisfies the invariant of the data model; all its rows are as wide as
    its head, whose cells are the column names, and its row identifiers are
    distinct.  The translator and the locale do not reach its head, its
    rows or what is serialized from it. *)
Theorem parseTable_is_fresh
    (translate : Translatable → string → string) (locale : string)
    (tableData : PropsUIPromptConsentFormTable) :
  tbl_deletedRows (parseTable translate locale tableData) = []
  ∧ tbl_deletedRowCount (parseTable translate locale tableData) = 0
  ∧ TableInvariant (parseTable translate locale tableData)
  ∧ TableWidth (parseTable translate locale tableData)
  ∧ NoDup (row_id <$> body_rows
             (tbl_originalBody (parseTable translate locale tableData)))
  ∧ head_cells (tbl_head (parseTable translate locale tableData))
    = columnNames (cft_data_frame tableData)
  ∧ tbl_body (parseTable translate locale tableData)
    = tbl_originalBody (parseTable translate locale tableData)
  ∧ (∀ translate' locale',
       tbl_head (parseTable translate' locale' tableData)
       = tbl_head (parseTable translate locale tableData)
       ∧ tbl_body (parseTable translate' locale' tableData)
         = tbl_body (parseTable translate locale tableData)
       ∧ serializeTable (parseTable translate' locale' tableData)
         = serializeTable (parseTable translate locale tableData)).
Proof.
  destruct (parseTable_invariant translate locale tableData) as [Hinv Hwidth].
  split; [done|]. split; [done|].
  split; [done|]. split; [done|].
  split; [apply parsed_rows_distinct_ids|].
  split; [simpl; apply list_fmap_id|]. split; [done|].
  intros translate' locale'. done.
Qed.

Lemma result_map_all_ok {A B} (f : A → result B) (l : list A) :
  Forall (λ x, ∃ y, f x = Ok y) l →
  ∃ ys, result_map f l = Ok ys ∧ length ys = length l.
Proof.
  induction 1 as [|x l [y Hy] _ (ys & Hys & Hlen)]; simpl.
  - by exists [].
  - exists (y :: ys). rewrite Hy, Hys. simpl. by rewrite Hlen.
Qed.

Lemma serializeTables_succeeds tables :
  Forall (λ table, TableInvariant table ∧ TableWidth table) tables →
  ∃ data, serializeTables tables = Ok data ∧ length data = length tables.
Proof.
  intros Hall. apply result_map_all_ok.
  eapply Forall_impl; [exact Hall|]. intros table [Hinv Hwidth].
  destruct (serializeTable_succeeds table Hinv Hwidth) as (data & -> & _).
  by eexists.
Qed.

Lemma updateTable_length tables id table :
  length (updateTable tables id table) = length tables.
Proof.
  unfold updateTable. destruct (list_find _ tables) as [[j t]|]; [|done].
  apply length_insert.
Qed.

Lemma form_updates_length tables updates :
  length (foldl form_update tables updates) = length tables.
Proof.
  revert tables. induction updates as [|update updates IH]; intros tables;
    [done|].
  simpl. rewrite IH. unfold form_update.
  destruct (tables !! update.1); [apply updateTable_length|done].
Qed.

(** X15. A form rendered from parsed tables can always donate: whatever the
    user does in the containers, [serializeConsentData] does not throw, and
    the donated array consists of one element per table, then one element
    per meta table, then the single record of the user's omissions. *)
Theorem donation_never_fails
    (newRegExp_i : string → result (string → bool))
    (translate : Translatable → string → string) (locale : string)
    (stringify_strings : list string → string)
    (stringify_payload : list PayloadElement → string)
    (tablesData metaTablesData : list PropsUIPromptConsentFormTable)
    (evs : list (nat * Event)) :
  ∃ tables metaTables,
    serializeTables
      (fs_tables (form_run newRegExp_i
         (mount (parseTables translate locale tablesData)
                (parseTables translate locale metaTablesData)) evs).1)
    = Ok tables
    ∧ serializeTables (parseTables translate locale metaTablesData)
      = Ok metaTables
    ∧ length tables = length tablesData
    ∧ length metaTables = length metaTablesData
    ∧ serializeConsentData stringify_strings stringify_payload
        (fs_tables (form_run newRegExp_i
           (mount (parseTables translate locale tablesData)
                  (parseTables translate locale metaTablesData)) evs).1)
        (fs_metaTables (form_run newRegExp_i
           (mount (parseTables translate locale tablesData)
                  (parseTables translate locale metaTablesData)) evs).1)
      = Ok (stringify_payload
              (tables ++ metaTables
               ++ [serializeDeletedMetaData stringify_strings
                     (fs_tables (form_run newRegExp_i
                        (mount (parseTables translate locale tablesData)
                               (parseTables translate locale metaTablesData))
                        evs).1)])).
Proof.
  pose proof (form_run_invariant newRegExp_i translate locale tablesData
                (parseTables translate locale metaTablesData) evs) as Hinv.
  destruct (form_run_tables newRegExp_i
              (mount (parseTables translate locale tablesData)
                     (parseTables translate locale metaTablesData)) evs)
    as [Htables Hmeta].
  destruct (serializeTables_succeeds _ Hinv) as (tables & Hok & Hlen).
  destruct (serializeTables_succeeds
              (parseTables translate locale metaTablesData))
    as (metaTables & HokM & HlenM).
  { apply Forall_fmap, Forall_forall. intros tableData _.
    apply parseTable_invariant. }
  exists tables, metaTables. split; [done|]. split; [done|].
  split.
  { rewrite Hlen, Htables, form_updates_length. simpl.
    unfold parseTables. by rewrite length_fmap. }
  split.
  { rewrite HlenM. unfold parseTables. by rewrite length_fmap. }
  unfold serializeConsentData, serializeMetaData.
  rewrite Hok, Hmeta. simpl fs_metaTables. rewrite HokM. done.
Qed.

(** * The tables of the form *)

(** X16. [updateTable] keeps the number of tables; it changes nothing when
    no table has the identifier; otherwise it replaces the first table that
    has the identifier, and only that one, also when later tables have the
    same identifier. *)
Theorem updateTable_replaces_first_match (tables : list TableWithContext)
    (tableId : string) (newTable : TableWithContext) :
  length (updateTable tables tableId newTable) = length tables
  ∧ ((∀ table, table ∈ tables → tbl_id table ≠ tableId) →
     updateTable tables tableId newTable = tables)
  ∧ (∀ (index : nat) old,
       tables !! index = Some old →
       tbl_id old = tableId →
       (∀ (j : nat) other, tables !! j = Some other → (j < index)%nat →
                           tbl_id other ≠ tableId) →
       updateTable tables tableId newTable !! index = Some newTable
       ∧ ∀ j : nat, j ≠ index →
                    updateTable tables tableId newTable !! j = tables !! j).
Proof.
  split; [apply updateTable_length|]. split.
  - intros Hnone. unfold updateTable.
    destruct (list_find (λ t, tbl_id t = tableId) tables) as [[j t]|] eqn:Hfind;
      [|done].
    apply list_find_Some in Hfind as (Hj & Hid & _).
    destruct (Hnone t); [|done]. by eapply list_elem_of_lookup_2.
  - intros index old Hat Hid Hfirst.
    rewrite <- Hid in *.
    rewrite (updateTable_at tables index old newTable Hat Hfirst).
    split.
    + apply list_lookup_insert_eq. by eapply lookup_lt_Some.
    + intros j Hne. by apply list_lookup_insert_ne.
Qed.

(** With two tables of the same identifier, an update meant for the second
    one replaces the first. *)
Example update_with_duplicate_identifiers :
  updateTable [scenario_table; applyDeletion scenario_table ["1"]] "t"
    (applyDeletion (applyDeletion scenario_table ["1"]) ["0"])
  = [ applyDeletion (applyDeletion scenario_table ["1"]) ["0"];
      applyDeletion scenario_table ["1"] ].
Proof. reflexivity. Qed.

Lemma hidden_iff_counted table :
  TableInvariant table →
  0 < tbl_deletedRowCount table
  ↔ body_rows (tbl_body table) ≠ body_rows (tbl_originalBody table).
Proof.
  intros (Hrows & Hsub & Hcount). rewrite Hcount.
  pose proof (sublist_length _ _ Hsub) as Hle. split.
  - intros Hpos Heq. rewrite Heq in Hpos. lia.
  - intros Hne.
    destruct (decide (length (body_rows (tbl_body table))
                      = length (body_rows (tbl_originalBody table))))
      as [Heq|Hlt]; [|lia].
    destruct Hne. rewrite Hrows. apply filter_full_length.
    by rewrite <- Hrows.
Qed.

(** X17. For tables that satisfy the invariant, the record of the user's
    omissions lists, in the order of the tables, exactly the tables in which
    some original row is hidden, each with its count; for freshly parsed
    tables the list is empty. *)
Theorem omissions_list_tables_with_hidden_rows
    (stringify_strings : list string → string)
    (tables : list TableWithContext) :
  Forall TableInvariant tables →
  serializeDeletedMetaData stringify_strings tables
  = UserOmissions
      (stringify_strings
         ((λ table,
             "User deleted " +:+ pretty (tbl_deletedRowCount table)
             +:+ " rows from table: " +:+ tbl_id table)
          <$> filter (λ table, body_rows (tbl_body table)
                               ≠ body_rows (tbl_originalBody table))
                     tables))
  ∧ ((∀ table, table ∈ tables →
               body_rows (tbl_body table)
               = body_rows (tbl_originalBody table)) →
     serializeDeletedMetaData stringify_strings tables
     = UserOmissions (stringify_strings [])).
Proof.
  intros Hinv.
  assert (filter (λ table, 0 < tbl_deletedRowCount table) tables
          = filter (λ table, body_rows (tbl_body table)
                             ≠ body_rows (tbl_originalBody table)) tables)
    as Heq.
  { apply filter_ext_pred. intros table Htable.
    apply hidden_iff_counted. rewrite Forall_forall in Hinv. by apply Hinv. }
  unfold serializeDeletedMetaData. rewrite Heq. split; [done|].
  intros Hfresh. rewrite filter_none; [done|].
  intros table Htable Hne. by apply Hne, Hfresh.
Qed.

Lemma omissions_list_tables_with_hidden_rows_witness :
  serializeDeletedMetaData (String.concat "; ")
    [scenario_table; applyDeletion scenario_table ["0"]]
  = UserOmissions
      (String.concat "; "
         ((λ table,
             "User deleted " +:+ pretty (tbl_deletedRowCount table)
             +:+ " rows from table: " +:+ tbl_id table)
          <$> filter (λ table, body_rows (tbl_body table)
                               ≠ body_rows (tbl_originalBody table))
                     [scenario_table; applyDeletion scenario_table ["0"]]))
  ∧ ((∀ table,
        table ∈ [scenario_table; applyDeletion scenario_table ["0"]] →
        body_rows (tbl_body table) = body_rows (tbl_originalBody table)) →
     serializeDeletedMetaData (String.concat "; ")
       [scenario_table; applyDeletion scenario_table ["0"]]
     = UserOmissions (String.concat "; " [])).
Proof.
  apply (omissions_list_tables_with_hidden_rows (String.concat "; ")
           [scenario_table; applyDeletion scenario_table ["0"]]).
  constructor; [exact scenario_table_invariant|].
  constructor; [apply deleteTableRows_invariant|constructor].
Defined.

(** The record of omissions after the row "0" of the scenario table was
    deleted. *)
Example omissions_in_the_scenario :
  serializeDeletedMetaData (String.concat "; ")
    [scenario_table; applyDeletion scenario_table ["0"]]
  = UserOmissions "User deleted 1 rows from table: t".
Proof. vm_compute. reflexivity. Qed.

(** * The record of a row *)

Lemma fromPairs_lookup (keys values : list string)
    (result : gmap string (option string)) :
  NoDup keys → length keys = length values →
  (∀ (i : nat) k v, keys !! i = Some k → values !! i = Some v →
     foldl (λ result pair, <[ default "undefined" pair.1 := pair.2 ]> result)
           result
           ((λ kv : string * string, (Some kv.1, Some kv.2))
            <$> zip keys values) !! k = Some (Some v))
  ∧ (∀ k, k ∉ keys →
       foldl (λ result pair, <[ default "undefined" pair.1 := pair.2 ]> result)
             result
             ((λ kv : string * string, (Some kv.1, Some kv.2))
              <$> zip keys values) !! k = result !! k).
Proof.
  revert values result.
  induction keys as [|k0 keys IH]; intros [|v0 values] result Hnd Hlen;
    try done.
  apply NoDup_cons in Hnd as [Hnotin Hnd].
  destruct (IH values (<[ k0 := Some v0 ]> result) Hnd) as [IHin IHout];
    [by simplify_eq/=|].
  split.
  - intros [|i] k v Hk Hv; simplify_eq/=.
    + rewrite IHout by done. apply lookup_insert_eq.
    + by eapply IHin.
  - intros k Hk. apply not_elem_of_cons in Hk as [Hne Hk]. simpl.
    rewrite IHout by done. by apply lookup_insert_ne.
Qed.

(** X18. For a row as wide as a head with distinct cells, [serializeRow]
    yields a record whose keys are the head cells and that maps the head
    cell at each position to the row cell at that position; no value of the
    record is [undefined]. *)
Theorem serializeRow_maps_head_to_cells (row : PropsUITableRow)
    (head : PropsUITableHead) :
  row_fits head row →
  NoDup (head_cells head) →
  ∃ record,
    serializeRow row head = Ok record
    ∧ (∀ (i : nat) key cell,
         head_cells head !! i = Some key →
         row_cells row !! i = Some cell →
         record !! key = Some (Some cell))
    ∧ (∀ key, key ∉ head_cells head → record !! key = None)
    ∧ (∀ key value, record !! key = Some value → is_Some value).
Proof.
  intros Hfits Hnd. eexists. split; [by apply serializeRow_fits|].
  destruct (fromPairs_lookup (head_cells head) (row_cells row) ∅ Hnd)
    as [Hin Hout]; [done|].
  split; [exact Hin|]. split.
  - intros key Hkey. unfold lodash_fromPairs. by rewrite Hout.
  - intros key value Hvalue.
    destruct (decide (key ∈ head_cells head)) as [Hkey|Hkey].
    + apply list_elem_of_lookup in Hkey as [i Hi].
      destruct (lookup_lt_is_Some_2 (row_cells row) i) as [cell Hcell].
      { rewrite Hfits. by eapply lookup_lt_Some. }
      unfold lodash_fromPairs in Hvalue.
      rewrite (Hin i key cell Hi Hcell) in Hvalue. by simplify_eq.
    + unfold lodash_fromPairs in Hvalue. by rewrite Hout in Hvalue.
Qed.

Lemma serializeRow_maps_head_to_cells_witness :
  ∃ record,
    serializeRow {| row_id := "1"; row_cells := ["TypeB"; "y"] |}
                 {| head_cells := ["Type"; "Value"] |}
    = Ok record
    ∧ (∀ (i : nat) key cell,
         ["Type"; "Value"] !! i = Some key →
         ["TypeB"; "y"] !! i = Some cell →
         record !! key = Some (Some cell))
    ∧ (∀ key, key ∉ ["Type"; "Value"] → record !! key = None)
    ∧ (∀ key value, record !! key = Some value → is_Some value).
Proof.
  apply (serializeRow_maps_head_to_cells
           {| row_id := "1"; row_cells := ["TypeB"; "y"] |}
           {| head_cells := ["Type"; "Value"] |}).
  - reflexivity.
  - compute_done.
Defined.

(** With a column name that occurs twice, the later cell is the one kept. *)
Example duplicate_column_keeps_the_later_cell :
  serializeRow {| row_id := "0"; row_cells := ["first"; "second"] |}
               {| head_cells := ["a"; "a"] |}
  = Ok {[ "a" := Some "second" ]}.
Proof. vm_compute. reflexivity. Qed.

(** * Tables with distinct identifiers *)

Lemma form_update_distinct tables update :
  NoDup (tbl_id <$> tables) →
  form_update tables update
  = match tables !! update.1 with
    | Some table => <[ update.1 := ledger_step table update.2 ]> tables
    | None => tables
    end.
Proof.
  intros Hnd. unfold form_update.
  destruct (tables !! update.1) as [table|] eqn:Hat; [|done].
  apply updateTable_at; [done|].
  intros j other Hother Hlt Hid.
  assert (j = update.1); [|lia].
  eapply (NoDup_lookup (tbl_id <$> tables)); [done|..].
  - by rewrite list_lookup_fmap, Hother.
  - rewrite list_lookup_fmap, Hat. simpl. by rewrite Hid.
Qed.

Lemma ledger_step_id table op : tbl_id (ledger_step table op) = tbl_id table.
Proof. by destruct op. Qed.

Lemma form_update_ids tables update :
  NoDup (tbl_id <$> tables) →
  tbl_id <$> form_update tables update = tbl_id <$> tables.
Proof.
  intros Hnd. rewrite form_update_distinct by done.
  destruct (tables !! update.1) as [table|] eqn:Hat; [|done].
  rewrite list_fmap_insert, ledger_step_id.
  apply list_insert_id. by rewrite list_lookup_fmap, Hat.
Qed.

Lemma form_updates_per_table tables updates (index : nat) :
  NoDup (tbl_id <$> tables) →
  foldl form_update tables updates !! index
  = (λ table, ledger_run table (ops_at index updates)) <$> tables !! index.
Proof.
  revert tables.
  induction updates as [|[j op] updates IH]; intros tables Hnd.
  - simpl. by destruct (tables !! index).
  - cbn [foldl]. rewrite IH by (by rewrite form_update_ids).
    rewrite form_update_distinct by done. unfold ops_at.
    rewrite filter_cons. cbn [fst snd].
    destruct (tables !! j) as [table|] eqn:Hat.
    + destruct (decide (j = index)) as [->|Hne].
      * rewrite list_lookup_insert_eq by (by eapply lookup_lt_Some).
        by rewrite Hat.
      * by rewrite list_lookup_insert_ne.
    + destruct (decide (j = index)) as [->|Hne]; [|done].
      by rewrite Hat.
Qed.

(** X19. In a form whose tables have distinct identifiers, every table
    evolves by the deletions and undos of its own container only: after any
    run, the table at a position is the table that was there at the start
    with the operations of that position applied, in order; a table whose
    container made no update is unchanged, and no table is added or
    lost. *)
Theorem tables_evolve_independently
    (newRegExp_i : string → result (string → bool))
    (fs : FormState) (evs : list (nat * Event)) :
  NoDup (tbl_id <$> fs_tables fs) →
  (∀ index : nat,
     fs_tables (form_run newRegExp_i fs evs).1 !! index
     = (λ table,
          ledger_run table (ops_at index (form_run newRegExp_i fs evs).2))
       <$> fs_tables fs !! index)
  ∧ (∀ index : nat,
       ops_at index (form_run newRegExp_i fs evs).2 = [] →
       fs_tables (form_run newRegExp_i fs evs).1 !! index
       = fs_tables fs !! index)
  ∧ length (fs_tables (form_run newRegExp_i fs evs).1)
    = length (fs_tables fs)
  ∧ tbl_id <$> fs_tables (form_run newRegExp_i fs evs).1
    = tbl_id <$> fs_tables fs.
Proof.
  intros Hnd.
  destruct (form_run_tables newRegExp_i fs evs) as [-> _].
  assert (∀ index : nat,
            foldl form_update (fs_tables fs) (form_run newRegExp_i fs evs).2
              !! index
            = (λ table,
                 ledger_run table
                   (ops_at index (form_run newRegExp_i fs evs).2))
              <$> fs_tables fs !! index) as Hper
    by (intros index; by apply form_updates_per_table).
  split; [done|]. split; [|split].
  - intros index Hnone. rewrite Hper, Hnone.
    by destruct (fs_tables fs !! index).
  - apply form_updates_length.
  - apply list_eq. intros index. rewrite !list_lookup_fmap, Hper.
    destruct (fs_tables fs !! index) as [table|]; [|done]. simpl.
    by destruct (ledger_run_frame table
                   (ops_at index (form_run newRegExp_i fs evs).2)) as [-> _].
Qed.

Lemma tables_evolve_independently_witness :
  (∀ index : nat,
     fs_tables (form_run literal_engine
                  (mount [scenario_table; second_table] [])
                  session_in_two_tables).1 !! index
     = (λ table,
          ledger_run table
            (ops_at index (form_run literal_engine
                             (mount [scenario_table; second_table] [])
                             session_in_two_tables).2))
       <$> fs_tables (mount [scenario_table; second_table] []) !! index)
  ∧ (∀ index : nat,
       ops_at index (form_run literal_engine
                       (mount [scenario_table; second_table] [])
                       session_in_two_tables).2 = [] →
       fs_tables (form_run literal_engine
                    (mount [scenario_table; second_table] [])
                    session_in_two_tables).1 !! index
       = fs_tables (mount [scenario_table; second_table] []) !! index)
  ∧ length (fs_tables (form_run literal_engine
                         (mount [scenario_table; second_table] [])
                         session_in_two_tables).1)
    = length (fs_tables (mount [scenario_table; second_table] []))
  ∧ tbl_id <$> fs_tables (form_run literal_engine
                            (mount [scenario_table; second_table] [])
                            session_in_two_tables).1
    = tbl_id <$> fs_tables (mount [scenario_table; second_table] []).
Proof.
  apply (tables_evolve_independently literal_engine
           (mount [scenario_table; second_table] []) session_in_two_tables).
  compute_done.
Defined.

(** The updates of the session in two tables: one deletion and its undo in
    the first table, one deletion of the rows shown in the second (both rows
    have a cell with the letter y). *)
Example updates_of_the_session_in_two_tables :
  (form_run literal_engine (mount [scenario_table; second_table] [])
     session_in_two_tables).2
  = [ (0%nat, ApplyDeletion ["0"]); (1%nat, ApplyDeletion ["0"; "1"]);
      (0%nat, UndoLast) ].
Proof. vm_compute. reflexivity. Qed.

(** * Further properties of the visualization pipeline *)

Lemma hook_onmessage_error msg :
  msg_status msg = error ∨ msg_visualizationData msg = None →
  hook_onmessage msg = (None, error).
Proof.
  unfold hook_onmessage.
  destruct (msg_status msg), (msg_visualizationData msg) as [[?|?]|];
    intros [?|?]; done.
Qed.

Lemma hook_onmessage_chart msg sent :
  msg_status msg ≠ error →
  msg_visualizationData msg = Some (ChartVisualizationData sent) →
  hook_onmessage msg
  = if decide (filter (λ item, valid_x (item_x item) = true) sent = [])
    then (None, success)
    else (Some (ChartVisualizationData
                  (filter (λ item, valid_x (item_x item) = true) sent)),
          success).
Proof.
  intros Hstatus Hdata. unfold hook_onmessage. rewrite Hdata.
  destruct (decide (filter (λ item, valid_x (item_x item) = true) sent = []))
    as [Hnil|Hcons].
  - rewrite Hnil. by destruct (msg_status msg).
  - rewrite bool_decide_eq_false_2 by (by rewrite length_zero_iff_nil).
    by destruct (msg_status msg).
Qed.

Lemma hook_onmessage_text msg words :
  msg_status msg ≠ error →
  msg_visualizationData msg = Some (TextVisualizationData words) →
  hook_onmessage msg = (Some (TextVisualizationData words), success).
Proof.
  intros Hstatus Hdata. unfold hook_onmessage. rewrite Hdata.
  by destruct (msg_status msg).
Qed.

(** X20. What the hook reports for a message of the worker: the status is
    never [loading]; it is [error] exactly when the message has status
    [error] or carries no data, and then no data is reported; chart data
    that is reported is never empty, holds only records with a valid key,
    and is the data of the message without the records with an invalid
    key, in the same order; when every record has an invalid key, the
    status is [success] without data. *)
Theorem hook_reports_clean_chart_data (msg : WorkerMessage) :
  (hook_onmessage msg).2 ≠ loading
  ∧ ((hook_onmessage msg).2 = error
     ↔ msg_status msg = error ∨ msg_visualizationData msg = None)
  ∧ ((hook_onmessage msg).2 = error → (hook_onmessage msg).1 = None)
  ∧ (∀ data,
       (hook_onmessage msg).1 = Some (ChartVisualizationData data) →
       data ≠ []
       ∧ Forall (λ item, valid_x (item_x item) = true) data
       ∧ ∃ sent,
           msg_visualizationData msg = Some (ChartVisualizationData sent)
           ∧ data = filter (λ item, valid_x (item_x item) = true) sent
           ∧ sublist data sent)
  ∧ (∀ sent,
       msg_status msg ≠ error →
       msg_visualizationData msg = Some (ChartVisualizationData sent) →
       Forall (λ item, valid_x (item_x item) = false) sent →
       hook_onmessage msg = (None, success))
  ∧ (∀ words,
       msg_status msg ≠ error →
       msg_visualizationData msg = Some (TextVisualizationData words) →
       hook_onmessage msg = (Some (TextVisualizationData words), success)).
Proof.
  destruct (decide (msg_status msg = error ∨ msg_visualizationData msg = None))
    as [Herr|Hok].
  - rewrite (hook_onmessage_error msg Herr). simpl.
    split; [done|]. split; [done|]. split; [done|]. split; [done|].
    split.
    + intros sent Hstatus Hdata. destruct Herr as [?|Hnone]; [done|].
      by rewrite Hnone in Hdata.
    + intros words Hstatus Hdata. destruct Herr as [?|Hnone]; [done|].
      by rewrite Hnone in Hdata.
  - assert (msg_status msg ≠ error) as Hstatus by tauto.
    destruct (msg_visualizationData msg) as [[sent|words]|] eqn:Hdata;
      [| |tauto].
    + rewrite (hook_onmessage_chart msg sent Hstatus Hdata).
      destruct (decide (filter (λ item, valid_x (item_x item) = true) sent
                        = [])) as [Hnil|Hcons]; simpl.
      * split; [done|]. split; [split; [done|tauto]|].
        split; [done|]. split; [done|]. split; [done|].
        intros words _ Hwords. done.
      * split; [done|]. split; [split; [done|tauto]|].
        split; [done|]. split; [|split].
        -- intros cleaned [= <-]. split; [done|]. split.
           ++ apply Forall_forall. intros item Hitem.
              by apply list_elem_of_filter in Hitem as [? _].
           ++ exists sent. split; [done|]. split; [done|].
              apply sublist_filter.
        -- intros sent' _ [= <-] Hall. destruct Hcons. apply filter_none.
           intros item Hitem. rewrite Forall_forall in Hall.
           rewrite (Hall item Hitem). discriminate.
        -- intros words _ Hwords. done.
    + rewrite (hook_onmessage_text msg words Hstatus Hdata). simpl.
      split; [done|]. split; [split; [done|tauto]|].
      split; [done|]. split; [done|]. split; [done|].
      by intros words' _ [= <-].
Qed.

(** X21. Without a table or without a descriptor, neither preparation is
    consulted: [createVisualizationData] throws the error "Table and
    visualization are required", which is logged with [console.error] by
    the function and by the worker, and the caller sees the status [error]
    without data. *)
Theorem missing_input_is_an_error
    (prepareChartData prepareTextData :
       TableWithContext → VisualizationType → result VisualizationData)
    (table : option TableWithContext)
    (visualization : option VisualizationType) :
  table = None ∨ visualization = None →
  createVisualizationData prepareChartData prepareTextData table visualization
  = (Throw {| err_class := ClsError;
              err_message := "Table and visualization are required" |},
     [ console_error "Error in createVisualizationData:"
         {| err_class := ClsError;
            err_message := "Table and visualization are required" |} ])
  ∧ worker_onmessage prepareChartData prepareTextData table visualization
    = ({| msg_status := error; msg_visualizationData := None |},
       [ console_error "Error in createVisualizationData:"
           {| err_class := ClsError;
              err_message := "Table and visualization are required" |};
         console_error "Error in visualizationDataWorker:"
           {| err_class := ClsError;
              err_message := "Table and visualization are required" |} ])
  ∧ visualization_result prepareChartData prepareTextData table visualization
    = (None, error).
Proof.
  intros Hmissing.
  assert (createVisualizationData_body prepareChartData prepareTextData
            table visualization
          = Throw {| err_class := ClsError;
                     err_message := "Table and visualization are required" |})
    as Hbody.
  { destruct Hmissing as [-> | ->]; [done|]. by destruct table. }
  unfold visualization_result, worker_onmessage, createVisualizationData.
  rewrite Hbody. done.
Qed.

Lemma missing_input_is_an_error_witness :
  createVisualizationData prepare_invalid_date_key prepare_invalid_date_key
    None (Some line_chart)
  = (Throw {| err_class := ClsError;
              err_message := "Table and visualization are required" |},
     [ console_error "Error in createVisualizationData:"
         {| err_class := ClsError;
            err_message := "Table and visualization are required" |} ])
  ∧ worker_onmessage prepare_invalid_date_key prepare_invalid_date_key
      None (Some line_chart)
    = ({| msg_status := error; msg_visualizationData := None |},
       [ console_error "Error in createVisualizationData:"
           {| err_class := ClsError;
              err_message := "Table and visualization are required" |};
         console_error "Error in visualizationDataWorker:"
           {| err_class := ClsError;
              err_message := "Table and visualization are required" |} ])
  ∧ visualization_result prepare_invalid_date_key prepare_invalid_date_key
      None (Some line_chart)
    = (None, error).
Proof.
  apply (missing_input_is_an_error prepare_invalid_date_key
           prepare_invalid_date_key None (Some line_chart)).
  by left.
Defined.

(** X22. The worker answers every request with exactly one message, whose
    status is [success] exactly when [createVisualizationData] returns;
    the message then carries the data returned and nothing is logged, and
    word-cloud data reaches the caller as it was prepared.  When the status
    is [error], the message carries no data and two lines were logged. *)
Theorem worker_answers_success_iff_prepared
    (prepareChartData prepareTextData :
       TableWithContext → VisualizationType → result VisualizationData)
    (table : option TableWithContext)
    (visualization : option VisualizationType) :
  (msg_status (worker_onmessage prepareChartData prepareTextData
                 table visualization).1 = success
   ↔ ∃ data,
       createVisualizationData_body prepareChartData prepareTextData
         table visualization = Ok data)
  ∧ (∀ data,
       createVisualizationData_body prepareChartData prepareTextData
         table visualization = Ok data →
       worker_onmessage prepareChartData prepareTextData table visualization
       = ({| msg_status := success; msg_visualizationData := Some data |}, []))
  ∧ (∀ words,
       createVisualizationData_body prepareChartData prepareTextData
         table visualization = Ok (TextVisualizationData words) →
       visualization_result prepareChartData prepareTextData
         table visualization
       = (Some (TextVisualizationData words), success))
  ∧ (msg_status (worker_onmessage prepareChartData prepareTextData
                   table visualization).1 = error →
     msg_visualizationData (worker_onmessage prepareChartData prepareTextData
                              table visualization).1 = None
     ∧ length (worker_onmessage prepareChartData prepareTextData
                 table visualization).2 = 2%nat).
Proof.
  unfold visualization_result, worker_onmessage, createVisualizationData.
  destruct (createVisualizationData_body prepareChartData prepareTextData
              table visualization) as [data|e]; simpl.
  - split; [split; [by eexists|done]|]. split; [by intros ? [= <-]|].
    split; [by intros ? [= ->]|]. done.
  - split; [split; [done|by intros [? ?]]|]. done.
Qed.

(** * The types listed on the donation page *)

Lemma elem_of_array_from_set values value :
  value ∈ array_from_set values ↔ value ∈ values.
Proof.
  induction values as [|v values IH]; simpl; [done|].
  rewrite !elem_of_cons, list_elem_of_filter, IH.
  destruct (decide (value = v)); tauto.
Qed.

Lemma NoDup_array_from_set values : NoDup (array_from_set values).
Proof.
  induction values as [|v values IH]; simpl; [constructor|].
  apply NoDup_cons. split.
  - rewrite list_elem_of_filter. tauto.
  - by apply NoDup_filter.
Qed.

Lemma sublist_array_from_set values :
  sublist (array_from_set values) values.
Proof.
  induction values as [|v values IH]; simpl; [done|].
  apply sublist_skip. etrans; [apply sublist_filter|done].
Qed.

Lemma array_from_set_NoDup values :
  NoDup values → array_from_set values = values.
Proof.
  induction 1 as [|v values Hnotin _ IH]; simpl; [done|].
  rewrite IH. f_equal. apply filter_all. intros other Hin ->. done.
Qed.

Lemma sublist_lookup_order {A} (l1 l2 : list A) (i j : nat) (v w : A) :
  sublist l1 l2 → l1 !! i = Some v → l1 !! j = Some w → (i < j)%nat →
  ∃ i' j' : nat, l2 !! i' = Some v ∧ l2 !! j' = Some w ∧ (i' < j')%nat.
Proof.
  intros Hsub. revert i j.
  induction Hsub as [|x l1 l2 Hsub IH|x l1 l2 Hsub IH]; intros i j Hi Hj Hlt.
  - done.
  - destruct j as [|j]; [lia|]. destruct i as [|i].
    + simpl in Hi, Hj. injection Hi as ->.
      assert (w ∈ l2) as Hin.
      { eapply elem_of_sublist; [|exact Hsub]. by eapply list_elem_of_lookup_2. }
      apply list_elem_of_lookup_1 in Hin as [j' Hj'].
      exists 0%nat, (S j'). split; [done|]. split; [done|]. lia.
    + simpl in Hi, Hj.
      destruct (IH i j Hi Hj ltac:(lia)) as (i' & j' & Hi' & Hj' & Hlt').
      exists (S i'), (S j'). split; [done|]. split; [done|]. lia.
  - destruct (IH i j Hi Hj Hlt) as (i' & j' & Hi' & Hj' & Hlt').
    exists (S i'), (S j'). split; [done|]. split; [done|]. lia.
Qed.

(** [Array.from(new Set(values))] lists the values in the order of their
    first occurrences: of two values it lists, the earlier one occurs in
    [values] before any occurrence of the later one. *)
Lemma array_from_set_order values (i j : nat) v w :
  array_from_set values !! i = Some v →
  array_from_set values !! j = Some w →
  (i < j)%nat →
  ∃ k : nat, values !! k = Some v ∧ w ∉ take (S k) values.
Proof.
  revert i j. induction values as [|x values IH]; intros i j Hi Hj Hlt;
    [done|].
  cbn [array_from_set] in Hi, Hj.
  destruct j as [|j]; [lia|]. cbn [lookup list_lookup] in Hj.
  assert (w ≠ x) as Hwx.
  { apply list_elem_of_lookup_2 in Hj.
    apply list_elem_of_filter in Hj. tauto. }
  destruct i as [|i].
  - injection Hi as ->. exists 0%nat. split; [done|].
    cbn [take]. rewrite take_0. apply not_elem_of_cons.
    split; [done|apply not_elem_of_nil].
  - cbn [lookup list_lookup] in Hi.
    destruct (sublist_lookup_order _ _ i j v w
                (sublist_filter _ (array_from_set values)) Hi Hj ltac:(lia))
      as (i' & j' & Hi' & Hj' & Hlt').
    destruct (IH i' j' Hi' Hj' Hlt') as (k & Hk & Hnotin).
    exists (S k). split; [done|].
    cbn [take]. apply not_elem_of_cons. by split.
Qed.

(** X23. The types the donation page lists: none when the body is not a
    consent form or when it has no table; otherwise the values of the
    column "Type" of the first table, each listed once, in the order of
    their first occurrences among the values [Object.values] lists: of two
    types listed, the first occurs among those values before any
    occurrence of the second (none is listed when the table has no such
    column).  Listing is idempotent. *)
Theorem uniqueTypes_lists_each_type_once
    (Object_values : Column → list JsValue) (body : PromptBody) :
  (∀ column value,
     value ∈ Object_values column ↔ ∃ key, column !! key = Some value) →
  NoDup (uniqueTypes Object_values body)
  ∧ (∀ firstTable tables,
       body = BodyConsentForm (Some (firstTable :: tables)) →
       (∀ value,
          value ∈ uniqueTypes Object_values body
          ↔ ∃ key,
              frame_column (cft_data_frame firstTable) "Type" !! key
              = Some value)
       ∧ sublist (uniqueTypes Object_values body)
                 (Object_values
                    (frame_column (cft_data_frame firstTable) "Type"))
       ∧ (∀ (i j : nat) v w,
            uniqueTypes Object_values body !! i = Some v →
            uniqueTypes Object_values body !! j = Some w →
            (i < j)%nat →
            ∃ k : nat,
              Object_values (frame_column (cft_data_frame firstTable) "Type")
                !! k = Some v
              ∧ w ∉ take (S k)
                      (Object_values
                         (frame_column (cft_data_frame firstTable) "Type")))
       ∧ ("Type" ∉ columnNames (cft_data_frame firstTable) →
          uniqueTypes Object_values body = []))
  ∧ ((∀ tables, body ≠ BodyConsentForm (Some tables)) →
     uniqueTypes Object_values body = [])
  ∧ uniqueTypes Object_values (BodyConsentForm (Some [])) = []
  ∧ array_from_set (uniqueTypes Object_values body)
    = uniqueTypes Object_values body.
Proof.
  intros Hvalues.
  assert (NoDup (uniqueTypes Object_values body)) as Hnd.
  { destruct body as [| | |[[|firstTable tables]|]| | |]; simpl;
      try constructor. apply NoDup_array_from_set. }
  split; [done|]. split; [|split; [|split]].
  - intros firstTable tables ->. simpl. split; [|split; [|split]].
    + intros value. by rewrite elem_of_array_from_set, Hvalues.
    + apply sublist_array_from_set.
    + intros i j v w. apply array_from_set_order.
    + intros Hnone.
      assert (frame_column (cft_data_frame firstTable) "Type" = ∅) as ->.
      { revert Hnone. unfold columnNames.
        induction (cft_data_frame firstTable) as [|[name column] frame IH];
          [done|].
        rewrite fmap_cons, not_elem_of_cons. simpl. intros [Hne Hnone].
        rewrite bool_decide_eq_false_2 by done. by apply IH. }
      destruct (array_from_set (Object_values ∅)) as [|value rest] eqn:Hset;
        [done|].
      assert (value ∈ Object_values ∅) as Hin.
      { apply elem_of_array_from_set. rewrite Hset. left. }
      apply Hvalues in Hin as [key Hkey]. unfold Column in *.
      by rewrite lookup_empty in Hkey.
  - intros Hother.
    destruct body as [| | |[[|firstTable tables]|]| | |]; try done.
    by destruct (Hother (firstTable :: tables)).
  - done.
  - by apply array_from_set_NoDup.
Qed.

Lemma values_by_index_values (column : Column) (value : JsValue) :
  value ∈ values_by_index column ↔ ∃ key, column !! key = Some value.
Proof.
  unfold values_by_index. rewrite elem_of_app, !list_elem_of_fmap. split.
  - intros [([n v] & -> & Hin)|([key v] & -> & Hin)].
    + rewrite merge_sort_Permutation in Hin.
      apply list_elem_of_omap in Hin as ([key v'] & Hentry & Hindex).
      simpl in Hindex. destruct (array_index key); [|done].
      injection Hindex as _ <-.
      exists key. by apply elem_of_map_to_list.
    + apply list_elem_of_filter in Hin as [_ Hentry].
      exists key. by apply elem_of_map_to_list.
  - intros [key Hkey]. apply elem_of_map_to_list in Hkey.
    destruct (array_index key) as [n|] eqn:Hindex.
    + left. exists (n, value). split; [done|].
      rewrite merge_sort_Permutation. apply list_elem_of_omap.
      exists (key, value). split; [done|]. simpl. by rewrite Hindex.
    + right. exists (key, value). split; [done|].
      apply list_elem_of_filter. by split.
Qed.

Lemma uniqueTypes_lists_each_type_once_witness :
  NoDup (uniqueTypes values_by_index (BodyConsentForm (Some [types_table])))
  ∧ (∀ firstTable tables,
       BodyConsentForm (Some [types_table])
       = BodyConsentForm (Some (firstTable :: tables)) →
       (∀ value,
          value ∈ uniqueTypes values_by_index
                    (BodyConsentForm (Some [types_table]))
          ↔ ∃ key,
              frame_column (cft_data_frame firstTable) "Type" !! key
              = Some value)
       ∧ sublist (uniqueTypes values_by_index
                    (BodyConsentForm (Some [types_table])))
                 (values_by_index
                    (frame_column (cft_data_frame firstTable) "Type"))
       ∧ (∀ (i j : nat) v w,
            uniqueTypes values_by_index
              (BodyConsentForm (Some [types_table])) !! i = Some v →
            uniqueTypes values_by_index
              (BodyConsentForm (Some [types_table])) !! j = Some w →
            (i < j)%nat →
            ∃ k : nat,
              values_by_index (frame_column (cft_data_frame firstTable) "Type")
                !! k = Some v
              ∧ w ∉ take (S k)
                      (values_by_index
                         (frame_column (cft_data_frame firstTable) "Type")))
       ∧ ("Type" ∉ columnNames (cft_data_frame firstTable) →
          uniqueTypes values_by_index
            (BodyConsentForm (Some [types_table])) = []))
  ∧ ((∀ tables, BodyConsentForm (Some [types_table])
                ≠ BodyConsentForm (Some tables)) →
     uniqueTypes values_by_index (BodyConsentForm (Some [types_table]))
     = [])
  ∧ uniqueTypes values_by_index (BodyConsentForm (Some [])) = []
  ∧ array_from_set (uniqueTypes values_by_index
                      (BodyConsentForm (Some [types_table])))
    = uniqueTypes values_by_index (BodyConsentForm (Some [types_table])).
Proof.
  apply (uniqueTypes_lists_each_type_once values_by_index
           (BodyConsentForm (Some [types_table]))).
  exact values_by_index_values.
Defined.

(** The values of the column in the order of the row numbers, and the
    types listed from them. *)
Example types_of_the_frame :
  values_by_index (frame_column types_frame "Type")
  = [JStr "Likes"; JStr "Shares"; JStr "Likes"; JStr "Posts"; JStr "Shares"]
  ∧ uniqueTypes values_by_index (BodyConsentForm (Some [types_table]))
    = [JStr "Likes"; JStr "Shares"; JStr "Posts"]
  ∧ values_by_index {[ "10" := JStr "k"; "9" := JStr "j"; "2" := JStr "c" ]}
    = [JStr "c"; JStr "j"; JStr "k"].
Proof. split; [|split]; vm_compute; reflexivity. Qed.

(** Repeated types are listed once, at their first place. *)
Example repeated_types_are_listed_once :
  array_from_set [JStr "Likes"; JStr "Shares"; JStr "Likes"; JStr "Posts";
                  JStr "Shares"]
  = [JStr "Likes"; JStr "Shares"; JStr "Posts"].
Proof. vm_compute. reflexivity. Qed.

(** * Searching and undoing in the form *)

Lemma form_step_search engine fs index ev :
  is_search_event ev = true →
  fs_tables (form_step engine fs index ev).1 = fs_tables fs
  ∧ (form_step engine fs index ev).2 = None.
Proof.
  intros Hev. unfold form_step.
  destruct (container_at fs index) as [st|]; [|done].
  destruct ev; try done; simpl.
Qed.

(** X24. Searching is view-only: a run made of typing in the search bar,
    choosing types and the debounce timer firing, in any containers and
    whatever the regular expression engine answers, hands nothing to
    [updateTable] and leaves the tables, the meta tables and the donated
    data as they were. *)
Theorem searching_changes_no_table
    (newRegExp_i : string → result (string → bool))
    (stringify_strings : list string → string)
    (stringify_payload : list PayloadElement → string)
    (fs : FormState) (evs : list (nat * Event)) :
  Forall (λ ev, is_search_event ev.2 = true) evs →
  (form_run newRegExp_i fs evs).2 = []
  ∧ fs_tables (form_run newRegExp_i fs evs).1 = fs_tables fs
  ∧ fs_metaTables (form_run newRegExp_i fs evs).1 = fs_metaTables fs
  ∧ serializeConsentData stringify_strings stringify_payload
      (fs_tables (form_run newRegExp_i fs evs).1)
      (fs_metaTables (form_run newRegExp_i fs evs).1)
    = serializeConsentData stringify_strings stringify_payload
        (fs_tables fs) (fs_metaTables fs).
Proof.
  intros Hsearch.
  assert ((form_run newRegExp_i fs evs).2 = []) as Hnone.
  { revert fs. induction Hsearch as [|[index ev] evs Hev _ IH]; intros fs;
      [done|].
    simpl. destruct (form_step_search newRegExp_i fs index ev Hev) as [_ Hop].
    destruct (form_step newRegExp_i fs index ev) as [fs' update].
    specialize (IH fs').
    destruct (form_run newRegExp_i fs' evs) as [fs'' updates].
    simpl in *. by rewrite Hop, IH. }
  destruct (form_run_tables newRegExp_i fs evs) as [Htables Hmeta].
  rewrite Hnone in Htables. simpl in Htables.
  split; [done|]. split; [done|]. split; [done|].
  by rewrite Htables, Hmeta.
Qed.

Lemma searching_changes_no_table_witness :
  (form_run literal_engine (mount [scenario_table; second_table] [])
     session_of_searching).2 = []
  ∧ fs_tables (form_run literal_engine
                 (mount [scenario_table; second_table] [])
                 session_of_searching).1
    = fs_tables (mount [scenario_table; second_table] [])
  ∧ fs_metaTables (form_run literal_engine
                     (mount [scenario_table; second_table] [])
                     session_of_searching).1
    = fs_metaTables (mount [scenario_table; second_table] [])
  ∧ serializeConsentData no_stringify no_stringify
      (fs_tables (form_run literal_engine
                    (mount [scenario_table; second_table] [])
                    session_of_searching).1)
      (fs_metaTables (form_run literal_engine
                        (mount [scenario_table; second_table] [])
                        session_of_searching).1)
    = serializeConsentData no_stringify no_stringify
        (fs_tables (mount [scenario_table; second_table] []))
        (fs_metaTables (mount [scenario_table; second_table] [])).
Proof.
  apply (searching_changes_no_table literal_engine no_stringify no_stringify
           (mount [scenario_table; second_table] []) session_of_searching).
  repeat constructor.
Defined.

(** X25. At a container whose table satisfies the invariant, a deletion
    that reaches [updateTable], undone at once, gives back the table; the
    search state is not given back: it stays cleared when the deletion
    covered as many rows as were shown, and is otherwise the one from
    before the deletion. *)
Theorem undo_restores_table_not_search
    (newRegExp_i : string → result (string → bool))
    (st : ContainerState) (rowIds : option (list string)) (op : LedgerOp) :
  TableInvariant (cs_table st) →
  (container_step newRegExp_i st (DeleteClicked rowIds)).2 = Some op →
  cs_table (container_step newRegExp_i
              (container_step newRegExp_i st (DeleteClicked rowIds)).1
              UndoClicked).1
  = cs_table st
  ∧ cs_state (container_step newRegExp_i
                (container_step newRegExp_i st (DeleteClicked rowIds)).1
                UndoClicked).1
    = (if bool_decide
            (length (default
                       (row_id <$> body_rows (tbl_body
                          (searchedTable (cs_table st)
                             (ss_searchFilterIds (cs_state st)))))
                       rowIds)
             = length (body_rows (tbl_body
                         (searchedTable (cs_table st)
                            (ss_searchFilterIds (cs_state st))))))
       then cleared else cs_state st).
Proof.
  intros Hinv. cbn [container_step]. unfold handleDelete.
  destruct rowIds as [rowIds|]; cbn [default from_option id];
    case_bool_decide; try done; intros _; cbn [fst snd cs_table cs_state];
    (split; [by apply handleUndo_applyDeletion|done]).
Qed.

Lemma undo_restores_table_not_search_witness :
  cs_table (container_step literal_engine
              (container_step literal_engine searched_x (DeleteClicked None)).1
              UndoClicked).1
  = cs_table searched_x
  ∧ cs_state (container_step literal_engine
                (container_step literal_engine searched_x
                   (DeleteClicked None)).1
                UndoClicked).1
    = (if bool_decide
            (length (default
                       (row_id <$> body_rows (tbl_body
                          (searchedTable (cs_table searched_x)
                             (ss_searchFilterIds (cs_state searched_x)))))
                       None)
             = length (body_rows (tbl_body
                         (searchedTable (cs_table searched_x)
                            (ss_searchFilterIds (cs_state searched_x))))))
       then cleared else cs_state searched_x).
Proof.
  apply (undo_restores_table_not_search literal_engine searched_x None
           (ApplyDeletion ["0"])).
  - exact scenario_table_invariant.
  - vm_compute. reflexivity.
Defined.
